(** * WebGLCrashCourse: the shape table, the vertex generators and [drawShape]

    A shallow embedding of [geometry.js] (the [shapes] table with
    [generateCircleVertices] and [generatePolygonVertices]) and of
    [drawShape] from [main.js], followed by the properties of the
    specification that were checked against it.  The rest of [main.js]
    ([initializeWebGL], [compileShader], [createWebGLProgram] and the
    body of the module) and the triangle sequence of the cheat sheet are
    embedded after that, with further properties of the code.

    Conventions of the embedding.

    - A JavaScript number is a [number]: a real, one of the two
      infinities, or NaN.  Every operation rounds its exact result to
      the nearest number of binary64, ties to even, and overflows to an
      infinity; filling a [Float32Array] rounds to binary32 in the same
      way ([Math.fround]).  [Math.PI] is the number of binary64 nearest
      to pi; [Math.cos] and [Math.sin] are taken to be correctly
      rounded, and the properties below that bound an error leave room
      for an implementation that is off by several units in the last
      place.  The sign of zero is not modelled; a zero divisor counts
      as [+0].  The special values follow IEEE 754.
    - Segment and side counts are integers ([Z]); the loop counter [i]
      is an integer as well and enters the arithmetic through [of_Z].
    - Code runs in the monad [JS] over a [world]: the heap of ordinary
      arrays (the local [vertices] is one, mutated by [push]) and the
      log of calls made on the WebGL context and on [console]. *)

From Stdlib Require Import Reals Lra ZArith Lia Zfloor.
From stdpp Require Import gmap strings list fin_maps.
From Equations Require Import Equations.

Local Open Scope Z_scope.

(** ** Numbers *)

Inductive number : Type :=
| Fin (x : R)
| PInf
| NInf
| NaN.

Declare Scope js_scope.
Delimit Scope js_scope with js.
Bind Scope js_scope with number.

(** *** Rounding

    A format has [precision] digits; its numbers are the [m * 2^e]
    with [|m| < 2^precision] and [quantum_min <= e], below
    [2^exponent_max] in magnitude. *)
Record format : Type := Format {
  precision : Z;
  quantum_min : Z;
  exponent_max : Z
}.

Definition binary64 : format := Format 53 (-1074) 1024.
Definition binary32 : format := Format 24 (-149) 128.

Definition bpow (e : Z) : R := powerRZ 2 e.

(** The exponent [e] with [2^(e-1) <= |x| < 2^e], for [x] other than 0. *)
Definition mag (x : R) : Z := Zfloor (ln (Rabs x) / ln 2) + 1.

(** The nearest integer, the even one of two that are equally near. *)
Definition ZnearestE (x : R) : Z :=
  let f := Zfloor x in
  if Rlt_dec (x - IZR f) (1 / 2) then f
  else if Rlt_dec (1 / 2) (x - IZR f) then f + 1
  else if Z.even f then f else f + 1.

(** The spacing of the numbers of the format around [x], as an exponent. *)
Definition quantum (f : format) (x : R) : Z :=
  Z.max (mag x - precision f) (quantum_min f).

(** Rounding to nearest, ties to even, before the test for overflow. *)
Definition round_finite (f : format) (x : R) : R :=
  (IZR (ZnearestE (x * bpow (- quantum f x))) * bpow (quantum f x))%R.

Definition round (f : format) (x : R) : number :=
  let y := round_finite f x in
  if Rle_dec (bpow (exponent_max f)) (Rabs y) then
    if Rlt_dec 0 y then PInf else NInf
  else Fin y.

(** *** Arithmetic *)

(** [x * inf] for a finite [x] and an infinity of the given sign:
    the sign of [x] decides, and [0 * Infinity] is NaN. *)
Definition scale_inf (x : R) (positive : bool) : number :=
  if Rlt_dec 0 x then (if positive then PInf else NInf)
  else if Rlt_dec x 0 then (if positive then NInf else PInf)
  else NaN.

Definition nadd (a b : number) : number :=
  match a, b with
  | NaN, _ | _, NaN => NaN
  | Fin x, Fin y => round binary64 (x + y)
  | PInf, NInf | NInf, PInf => NaN
  | PInf, _ | _, PInf => PInf
  | NInf, _ | _, NInf => NInf
  end.

Definition nmul (a b : number) : number :=
  match a, b with
  | NaN, _ | _, NaN => NaN
  | Fin x, Fin y => round binary64 (x * y)
  | Fin x, PInf | PInf, Fin x => scale_inf x true
  | Fin x, NInf | NInf, Fin x => scale_inf x false
  | PInf, PInf | NInf, NInf => PInf
  | PInf, NInf | NInf, PInf => NInf
  end.

Definition ndiv (a b : number) : number :=
  match a, b with
  | NaN, _ | _, NaN => NaN
  | Fin x, Fin y =>
      if Req_dec_T y 0 then scale_inf x true else round binary64 (x / y)
  | Fin _, (PInf | NInf) => Fin 0
  | PInf, Fin y => if Rlt_dec y 0 then NInf else PInf
  | NInf, Fin y => if Rlt_dec y 0 then PInf else NInf
  | (PInf | NInf), (PInf | NInf) => NaN
  end.

Infix "+" := nadd : js_scope.
Infix "*" := nmul : js_scope.
Infix "/" := ndiv : js_scope.

(** [Math.cos], [Math.sin]: NaN outside the finite numbers. *)
Definition Math_cos (a : number) : number :=
  match a with Fin x => round binary64 (cos x) | _ => NaN end.

Definition Math_sin (a : number) : number :=
  match a with Fin x => round binary64 (sin x) | _ => NaN end.

Definition Math_PI : number := round binary64 PI.

(** The conversion done on each element copied into a [Float32Array]. *)
Definition Math_fround (a : number) : number :=
  match a with Fin x => round binary32 x | _ => a end.

Definition of_Z (i : Z) : number := Fin (IZR i).
Definition of_nat (n : nat) : number := of_Z (Z.of_nat n).

(** ** Values *)

Inductive value : Type :=
| Undefined
| Num (x : number)
| Str (s : string)
| Float32Array (elems : list number)
| Object (name : string).

(** [ToBoolean]; every object is truthy, an empty typed array too. *)
Definition ToBoolean (v : value) : bool :=
  match v with
  | Undefined => false
  | Num (Fin x) => if Req_dec_T x 0 then false else true
  | Num NaN => false
  | Num _ => true
  | Str s => negb (String.eqb s EmptyString)
  | Float32Array _ | Object _ => true
  end.

(** ** The world and the monad *)

Inductive gl_enum : Type :=
| ARRAY_BUFFER | STATIC_DRAW | FLOAT | COLOR_BUFFER_BIT
| TRIANGLES | TRIANGLE_FAN | LINES | LINE_LOOP.

Inductive event : Type :=
| gl_createBuffer
| gl_bindBuffer (target : gl_enum) (buffer : value)
| gl_bufferData (target : gl_enum) (data : value) (usage : gl_enum)
| gl_getAttribLocation (program : value) (name : string)
| gl_enableVertexAttribArray (index : value)
| gl_vertexAttribPointer (index : value) (size : Z) (type : gl_enum)
    (normalized : bool) (stride offset : Z)
| gl_clearColor (r g b a : number)
| gl_clear (mask : gl_enum)
| gl_drawArrays (mode : gl_enum) (first : Z) (count : number)
| console_error (args : list value).

Record world : Type := World {
  heap : list (list number);
  log : list event
}.

(** How a call ends: with a result, or with a thrown value. *)
Inductive completion (A : Type) : Type :=
| Normal (a : A)
| Throw (e : value).
Arguments Normal {A} a.
Arguments Throw {A} e.

Definition JS (A : Type) : Type := world -> completion A * world.

#[export] Instance JS_ret : MRet JS := fun A a w => (Normal a, w).
#[export] Instance JS_bind : MBind JS :=
  fun A B k m w =>
    match m w with
    | (Normal a, w') => k a w'
    | (Throw e, w') => (Throw e, w')
    end.

Definition throw {A : Type} (e : value) : JS A := fun w => (Throw e, w).

Definition emit (e : event) : JS () :=
  fun w => (Normal tt, World (heap w) (log w ++ [e])).

(** [[x, y]]: a fresh ordinary array; its address is the result. *)
Definition array_literal (elems : list number) : JS nat :=
  fun w => (Normal (length (heap w)), World (heap w ++ [elems]) (log w)).

(** [a.push(x, y)] (the new length it returns is dropped by the callers). *)
Definition push (a : nat) (items : list number) : JS () :=
  fun w =>
    (Normal tt, World (alter (fun elems => elems ++ items) a (heap w)) (log w)).

(** [new Float32Array(a)]: a typed array holding the converted elements. *)
Definition new_Float32Array (a : nat) : JS value :=
  fun w => (Normal (Float32Array (Math_fround <$> default [] (heap w !! a))), w).

(** [for (let i = ...; i <= n; i++) body], entered with the current [i]. *)
Equations? for_le (i n : Z) (body : Z -> JS ()) (w : world)
  : completion () * world by wf (Z.to_nat (n + 1 - i)) lt :=
  for_le i n body w with decide (i <= n) => {
    | left _ with body i w => {
      | (Normal _, w') => for_le (i + 1) n body w'
      | (Throw e, w') => (Throw e, w') }
    | right _ => (Normal tt, w) }.
Proof. lia. Qed.

(** [for (let i = ...; i < n; i++) body], entered with the current [i]. *)
Equations? for_lt (i n : Z) (body : Z -> JS ()) (w : world)
  : completion () * world by wf (Z.to_nat (n - i)) lt :=
  for_lt i n body w with decide (i < n) => {
    | left _ with body i w => {
      | (Normal _, w') => for_lt (i + 1) n body w'
      | (Throw e, w') => (Throw e, w') }
    | right _ => (Normal tt, w) }.
Proof. lia. Qed.

(** ** geometry.js *)

Definition generateCircleVertices (cx cy radius : number) (numSegments : Z)
  : JS value :=
  vertices ← array_literal [cx; cy];
  let angleStep := ((Math_PI * Fin 2) / of_Z numSegments)%js in
  for_le 0 numSegments (fun i =>
    let angle := (of_Z i * angleStep)%js in
    let x := (cx + radius * Math_cos angle)%js in
    let y := (cy + radius * Math_sin angle)%js in
    push vertices [x; y]);;
  new_Float32Array vertices.

Definition generatePolygonVertices (cx cy radius : number) (numSides : Z)
  : JS value :=
  vertices ← array_literal [];
  let angleStep := ((Math_PI * Fin 2) / of_Z numSides)%js in
  for_lt 0 numSides (fun i =>
    let angle := (of_Z i * angleStep)%js in
    let x := (cx + radius * Math_cos angle)%js in
    let y := (cy + radius * Math_sin angle)%js in
    push vertices [x; y]);;
  new_Float32Array vertices.

(** [new Float32Array([a, b, ...])] *)
Definition Float32Array_from (elems : list number) : JS value :=
  a ← array_literal elems;
  new_Float32Array a.

(** The object literal exported as [shapes]: its own properties, in
    the order in which the literal evaluates them. *)
Definition geometry : JS (gmap string value) :=
  triangle ← Float32Array_from
    [Fin 0; Fin 0.5;
     Fin (-0.5); Fin (-0.5);
     Fin 0.5; Fin (-0.5)];
  rectangle ← Float32Array_from
    [Fin (-0.5); Fin 0.5;
     Fin (-0.5); Fin (-0.5);
     Fin 0.5; Fin (-0.5);
     Fin (-0.5); Fin 0.5;
     Fin 0.5; Fin (-0.5);
     Fin 0.5; Fin 0.5];
  circle ← generateCircleVertices (Fin 0) (Fin 0) (Fin 0.5) 50;
  line ← Float32Array_from
    [Fin (-0.5); Fin 0;
     Fin 0.5; Fin 0];
  polygon ← generatePolygonVertices (Fin 0) (Fin 0) (Fin 0.5) 6;
  mret (<["triangle" := triangle]> (<["rectangle" := rectangle]>
       (<["circle" := circle]> (<["line" := line]>
       (<["polygon" := polygon]> ∅))))).

(** The module is evaluated once, when it is loaded. *)
Definition shapes : gmap string value :=
  match geometry (World [] []) with
  | (Normal o, _) => o
  | (Throw _, _) => ∅
  end.

(** What every object made by an object literal inherits from
    [Object.prototype]: functions, and the accessor [__proto__], which
    reads as the prototype object.  All of them are objects. *)
Definition Object_prototype : gmap string value :=
  list_to_map ((fun k => (k, Object k)) <$>
    ["constructor"; "hasOwnProperty"; "isPrototypeOf";
     "propertyIsEnumerable"; "toLocaleString"; "toString"; "valueOf";
     "__proto__"; "__defineGetter__"; "__defineSetter__";
     "__lookupGetter__"; "__lookupSetter__"]).

(** [o[P]] for an object literal [o]: an own property, else an
    inherited one, else [undefined]. *)
Definition Get (o : gmap string value) (P : string) : value :=
  match o !! P with
  | Some v => v
  | None => default Undefined (Object_prototype !! P)
  end.

(** ** main.js *)

(** What the WebGL context answers to the two calls whose result
    [drawShape] binds. *)
Record WebGLRenderingContext : Type := {
  createBuffer_result : value;
  getAttribLocation_result : value -> string -> value
}.

(** The names [drawShape] reads from outside its own body: the
    module-level constant [program], and [location], which no file of
    the source declares and which therefore denotes the property of the
    browser's global object. *)
Record scope : Type := {
  program : value;
  location : value
}.

Definition createBuffer (gl : WebGLRenderingContext) : JS value :=
  emit gl_createBuffer;;
  mret (createBuffer_result gl).

Definition getAttribLocation (gl : WebGLRenderingContext) (prog : value)
  (name : string) : JS value :=
  emit (gl_getAttribLocation prog name);;
  mret (getAttribLocation_result gl prog name).

(** [v.length / 2].  A typed array has its element count as [length];
    reading a property of [undefined] throws a [TypeError]; the other
    values never reach this point of [drawShape] and their [length] is
    not modelled (NaN). *)
Definition half_length (v : value) : JS number :=
  match v with
  | Float32Array elems => mret (of_nat (length elems) / Fin 2)%js
  | Undefined => throw (Object "TypeError")
  | _ => mret NaN
  end.

(** The double-quote character (code 34), as a one-character string. *)
Definition double_quote : string := String (Ascii.ascii_of_nat 34) EmptyString.

(** The [switch (shapeName)] that ends [drawShape]. *)
Definition drawShape_switch (shapeName : string) (shapeVertices : value)
  : JS () :=
  if bool_decide (shapeName = "triangle")
     || bool_decide (shapeName = "rectangle") then
    count ← half_length shapeVertices;
    emit (gl_drawArrays TRIANGLES 0 count)
  else if bool_decide (shapeName = "circle") then
    count ← half_length shapeVertices;
    emit (gl_drawArrays TRIANGLE_FAN 0 count)
  else if bool_decide (shapeName = "line") then
    count ← half_length shapeVertices;
    emit (gl_drawArrays LINES 0 count)
  else if bool_decide (shapeName = "polygon") then
    count ← half_length shapeVertices;
    emit (gl_drawArrays LINE_LOOP 0 count)
  else
    emit (console_error [Str "Unsupported shape type"]).

Definition drawShape (sc : scope) (gl : WebGLRenderingContext)
  (shapeName : string) : JS () :=
  let shapeVertices := Get shapes shapeName in
  if negb (ToBoolean shapeVertices) then
    emit (console_error
      [Str ("Shape " +:+ double_quote +:+ shapeName +:+ double_quote
            +:+ " not found!")])
  else
    buffer ← createBuffer gl;
    emit (gl_bindBuffer ARRAY_BUFFER buffer);;
    emit (gl_bufferData ARRAY_BUFFER shapeVertices STATIC_DRAW);;
    aPositionLocation ← getAttribLocation gl (program sc) "aPosition";
    emit (gl_enableVertexAttribArray (location sc));;
    emit (gl_vertexAttribPointer (location sc) 2 FLOAT false 0 0);;
    emit (gl_clearColor (Fin 0) (Fin 0) (Fin 0) (Fin 1));;
    emit (gl_clear COLOR_BUFFER_BIT);;
    drawShape_switch shapeName shapeVertices.

(** ** Reading the results *)

(** The result of a call that returned, and whether a call was
    rejected (ended by a thrown value, whatever it is). *)
Definition returned {A : Type} (r : completion A * world) : option A :=
  match r.1 with Normal a => Some a | Throw _ => None end.

Definition rejected {A : Type} (r : completion A * world) : Prop :=
  exists e, r.1 = Throw e.

(** The parameters that the specification calls invalid: a radius that
    is not positive, or a count below three. *)
Definition positive (a : number) : Prop :=
  match a with
  | Fin x => (0 < x)%R
  | PInf => True
  | NInf | NaN => False
  end.

Definition invalid (radius : number) (count : Z) : Prop :=
  ~ positive radius \/ count < 3.

(** A flat array read two numbers at a time, the layout that
    [vertexAttribPointer(_, 2, FLOAT, false, 0, 0)] announces. *)
Fixpoint points (a : list number) : list (number * number) :=
  match a with
  | x :: y :: rest => (x, y) :: points rest
  | _ => []
  end.

Definition finite_point (p : R * R) : number * number := (Fin p.1, Fin p.2).

(** The point computed by iteration [i] of either generator, and the
    two numbers that the iteration pushes. *)
Definition sample_point (cx cy radius : number) (count i : Z)
  : number * number :=
  let angleStep := ((Math_PI * Fin 2) / of_Z count)%js in
  let angle := (of_Z i * angleStep)%js in
  ((cx + radius * Math_cos angle)%js, (cy + radius * Math_sin angle)%js).

Definition sample (cx cy radius : number) (count i : Z) : list number :=
  [(sample_point cx cy radius count i).1; (sample_point cx cy radius count i).2].

Definition circle_values (cx cy radius : number) (n : Z) : list number :=
  [cx; cy] ++ (seqZ 0 (n + 1) ≫= sample cx cy radius n).

Definition polygon_values (cx cy radius : number) (n : Z) : list number :=
  seqZ 0 n ≫= sample cx cy radius n.

(** A point as a [Float32Array] holds it. *)
Definition stored (p : number * number) : number * number :=
  (Math_fround p.1, Math_fround p.2).

(** The point of the contract:
    [(cx + r cos (i (2 pi / n)), cy + r sin (i (2 pi / n)))]. *)
Definition contract_point (cx cy r : R) (n i : Z) : R * R :=
  ((cx + r * cos (IZR i * (2 * PI / IZR n)))%R,
   (cy + r * sin (IZR i * (2 * PI / IZR n)))%R).

Definition distance (p c : R * R) : R :=
  sqrt ((p.1 - c.1) ^ 2 + (p.2 - c.2) ^ 2)%R.

Definition midpoint (p q : R * R) : R * R :=
  (((p.1 + q.1) / 2)%R, ((p.2 + q.2) / 2)%R).


(** Orientation and containment, for the two triangles of the rectangle. *)
Definition cross (a b c : R * R) : R :=
  ((b.1 - a.1) * (c.2 - a.2) - (b.2 - a.2) * (c.1 - a.1))%R.

Definition counter_clockwise (a b c : R * R) : Prop := (0 < cross a b c)%R.

Definition in_triangle (a b c p : R * R) : Prop :=
  (0 <= cross a b p)%R /\ (0 <= cross b c p)%R /\ (0 <= cross c a p)%R.

Definition in_square (half : R) (p : R * R) : Prop :=
  (- half <= p.1 <= half)%R /\ (- half <= p.2 <= half)%R.

(** The calls of the log that draw, and the attribute indices that the
    binding calls of the log were given. *)
Definition draw_of (e : event) : option (gl_enum * Z * number) :=
  match e with
  | gl_drawArrays mode first count => Some (mode, first, count)
  | _ => None
  end.

Definition draw_calls (l : list event) : list (gl_enum * Z * number) :=
  omap draw_of l.

Definition attribute_index_of (e : event) : option value :=
  match e with
  | gl_enableVertexAttribArray index => Some index
  | gl_vertexAttribPointer index _ _ _ _ _ => Some index
  | _ => None
  end.

Definition attribute_indices (l : list event) : list value :=
  omap attribute_index_of l.

Definition is_buffer_call (e : event) : bool :=
  match e with
  | gl_createBuffer | gl_bindBuffer _ _ | gl_bufferData _ _ _ => true
  | _ => false
  end.

Definition registered (shapeName : string) : Prop :=
  shapeName ∈ ["triangle"; "rectangle"; "circle"; "line"; "polygon"].

Definition inherited (shapeName : string) : Prop :=
  is_Some (Object_prototype !! shapeName).

(** The calls [drawShape] makes, in order, between the lookup of the
    shape and the choice of the draw mode. *)
Definition setup_calls (sc : scope) (gl : WebGLRenderingContext)
  (shapeVertices : value) : list event :=
  [gl_createBuffer;
   gl_bindBuffer ARRAY_BUFFER (createBuffer_result gl);
   gl_bufferData ARRAY_BUFFER shapeVertices STATIC_DRAW;
   gl_getAttribLocation (program sc) "aPosition";
   gl_enableVertexAttribArray (location sc);
   gl_vertexAttribPointer (location sc) 2 FLOAT false 0 0;
   gl_clearColor (Fin 0) (Fin 0) (Fin 0) (Fin 1);
   gl_clear COLOR_BUFFER_BIT].

Definition not_found_message (shapeName : string) : value :=
  Str ("Shape " +:+ double_quote +:+ shapeName +:+ double_quote
       +:+ " not found!").

(** [drawShape(gl, shapeName)] finds the typed array [a] under
    [shapeName], returns, and among the calls it adds to the log
    exactly one draws: [drawArrays(mode, 0, a.length / 2)], whose count
    is the number of points of [a]. *)
Definition draws_once (sc : scope) (gl : WebGLRenderingContext)
  (shapeName : string) (mode : gl_enum) : Prop :=
  forall w, exists a calls,
    shapes !! shapeName = Some (Float32Array a) /\
    drawShape sc gl shapeName w = (Normal tt, World (heap w) (log w ++ calls)) /\
    draw_calls calls = [(mode, 0, (of_nat (length a) / Fin 2)%js)] /\
    (of_nat (length a) / Fin 2)%js = of_nat (length (points a)).

(** A browser scope and a context, to run [drawShape] on. *)
Definition a_scope : scope :=
  {| program := Object "WebGLProgram"; location := Object "Location" |}.

Definition a_context : WebGLRenderingContext :=
  {| createBuffer_result := Object "WebGLBuffer";
     getAttribLocation_result := fun _ _ => Num (Fin 0) |}.

(** ** Further readings of the generated points *)

(** [p] is finite and each of its coordinates is within [r] of the
    corresponding coordinate of [c]. *)
Definition within (c : R * R) (r : R) (p : number * number) : Prop :=
  match p with
  | (Fin x, Fin y) => (Rabs (x - c.1) <= r)%R /\ (Rabs (y - c.2) <= r)%R
  | _ => False
  end.

(** Two finite points whose coordinates differ by at most [tol]. *)
Definition close (tol : R) (p q : number * number) : Prop :=
  match p, q with
  | (Fin x, Fin y), (Fin x', Fin y') =>
      (Rabs (x - x') <= tol)%R /\ (Rabs (y - y') <= tol)%R
  | _, _ => False
  end.

(** The tolerance on a stored coordinate of a sample: a unit in the
    last place of binary32 at the magnitude [|cx| + |cy| + |r|], and
    the smallest positive number of binary32. *)
Definition tolerance (cx cy r : R) : R :=
  ((Rabs cx + Rabs cy + Rabs r) * bpow (-23) + bpow (-149))%R.

(** A coordinate that is finite and inside clip space. *)
Definition in_clip_space (v : number) : Prop :=
  match v with
  | Fin x => (-1 <= x <= 1)%R
  | _ => False
  end.

(** ** main.js: the bootstrap *)

(** The rest of [main.js] runs against more of the browser than
    [drawShape] does.  Its calls are recorded as [action]s: the calls
    on [document], on the canvas and on the context that set the
    program up, and, wrapped in [rendering], the events of the log
    above ([console.error] among them).  As for [drawShape], a call on
    the context is recorded and answered, not interpreted: what the
    context does with the arguments it is given is not modelled.  In
    particular [createShader] and [createProgram] are taken to answer
    with objects. *)
Inductive shader_type : Type := VERTEX_SHADER | FRAGMENT_SHADER.

Inductive gl_pname : Type := COMPILE_STATUS | LINK_STATUS.

Inductive action : Type :=
| document_getElementById (id : string)
| canvas_getContext (contextId : string)
| gl_createShader (type : shader_type)
| gl_shaderSource (shader : value) (source : string)
| gl_compileShader (shader : value)
| gl_getShaderParameter (shader : value) (pname : gl_pname)
| gl_getShaderInfoLog (shader : value)
| gl_deleteShader (shader : value)
| gl_createProgram
| gl_attachShader (prog : value) (shader : option value)
| gl_linkProgram (prog : value)
| gl_getProgramParameter (prog : value) (pname : gl_pname)
| gl_getProgramInfoLog (prog : value)
| gl_deleteProgram (prog : value)
| gl_useProgram (prog : value)
| rendering (e : event).

(** The answers of a WebGL context.  The two [..Parameter] calls are
    answered by the truth value of what they return, which is all that
    the source looks at.  [None] stands for [null] throughout. *)
Record WebGL : Type := {
  createShader_result : shader_type -> value;
  getShaderParameter_result : value -> gl_pname -> bool;
  getShaderInfoLog_result : value -> value;
  createProgram_result : value;
  getProgramParameter_result : value -> gl_pname -> bool;
  getProgramInfoLog_result : value -> value;
  drawing_context : WebGLRenderingContext
}.

Record HTMLCanvasElement : Type := {
  getContext_result : string -> option WebGL
}.

Record page : Type := Page {
  arrays : list (list number);
  actions : list action
}.

Definition Boot (A : Type) : Type := page -> completion A * page.

#[export] Instance Boot_ret : MRet Boot := fun A a p => (Normal a, p).
#[export] Instance Boot_bind : MBind Boot :=
  fun A B k m p =>
    match m p with
    | (Normal a, p') => k a p'
    | (Throw e, p') => (Throw e, p')
    end.

Definition raise {A : Type} (e : value) : Boot A := fun p => (Throw e, p).

Definition act (a : action) : Boot () :=
  fun p => (Normal tt, Page (arrays p) (actions p ++ [a])).

(** A computation of the rendering layer, run inside the page. *)
Definition render {A : Type} (m : JS A) : Boot A :=
  fun p =>
    let '(c, w) := m (World (arrays p) []) in
    (c, Page (heap w) (actions p ++ (rendering <$> log w))).

(** [new Error(message)], an object known by what it prints as. *)
Definition new_Error (message : string) : value :=
  Object ("Error: " +:+ message).

Definition initializeWebGL (canvas : option HTMLCanvasElement) : Boot WebGL :=
  match canvas with
  | None => raise (Object "TypeError")
  | Some element =>
    act (canvas_getContext "webgl");;
    match getContext_result element "webgl" with
    | None =>
      act (rendering
        (console_error [Str "WebGL not supported in this browser!"]));;
      raise (new_Error "WebGL not supported")
    | Some gl => mret gl
    end
  end.

Definition compileShader (gl : WebGL) (source : string) (type : shader_type)
  : Boot (option value) :=
  act (gl_createShader type);;
  let shader := createShader_result gl type in
  act (gl_shaderSource shader source);;
  act (gl_compileShader shader);;
  act (gl_getShaderParameter shader COMPILE_STATUS);;
  if negb (getShaderParameter_result gl shader COMPILE_STATUS) then
    act (gl_getShaderInfoLog shader);;
    act (rendering (console_error
      [Str "Error compiling shader:"; getShaderInfoLog_result gl shader]));;
    act (gl_deleteShader shader);;
    mret None
  else
    mret (Some shader).

Definition createWebGLProgram (gl : WebGL)
  (vertexShader fragmentShader : option value) : Boot value :=
  act gl_createProgram;;
  let program := createProgram_result gl in
  act (gl_attachShader program vertexShader);;
  act (gl_attachShader program fragmentShader);;
  act (gl_linkProgram program);;
  act (gl_getProgramParameter program LINK_STATUS);;
  if negb (getProgramParameter_result gl program LINK_STATUS) then
    act (gl_getProgramInfoLog program);;
    act (rendering (console_error
      [Str "Error linking program:"; getProgramInfoLog_result gl program]));;
    act (gl_deleteProgram program);;
    raise (new_Error "Failed to link program")
  else
    mret program.

(** The body of the module.  The two shader sources are imported from
    files that are not part of the source and are parameters here, as
    are the document and the global [location]. *)
Definition main (document : string -> option HTMLCanvasElement)
  (vertexShaderSource fragmentShaderSource : string) (location : value)
  : Boot () :=
  act (document_getElementById "glCanvas");;
  let canvas := document "glCanvas" in
  gl ← initializeWebGL canvas;
  vertexShader ← compileShader gl vertexShaderSource VERTEX_SHADER;
  fragmentShader ← compileShader gl fragmentShaderSource FRAGMENT_SHADER;
  program ← createWebGLProgram gl vertexShader fragmentShader;
  act (gl_useProgram program);;
  render (drawShape {| program := program; location := location |}
            (drawing_context gl) "circle").

(** The context in which [main] gets to draw: the canvas is in the
    document, it gives a context, and the program links in it. *)
Definition linked_context (document : string -> option HTMLCanvasElement)
  : option WebGL :=
  match document "glCanvas" with
  | None => None
  | Some element =>
    match getContext_result element "webgl" with
    | None => None
    | Some gl =>
      if getProgramParameter_result gl (createProgram_result gl) LINK_STATUS
      then Some gl else None
    end
  end.

Definition compiles (gl : WebGL) (type : shader_type) : bool :=
  getShaderParameter_result gl (createShader_result gl type) COMPILE_STATUS.

(** The actions that use the program: [useProgram] and the draw calls. *)
Definition uses_program (a : action) : bool :=
  match a with
  | gl_useProgram _ | rendering (gl_drawArrays _ _ _) => true
  | _ => false
  end.

(** The actions of compiling one shader that compiles. *)
Definition compile_actions (gl : WebGL) (source : string) (type : shader_type)
  : list action :=
  [gl_createShader type;
   gl_shaderSource (createShader_result gl type) source;
   gl_compileShader (createShader_result gl type);
   gl_getShaderParameter (createShader_result gl type) COMPILE_STATUS].

(** A context, a canvas and a document to run [main] on: the context
    answers the status queries with [compiled] and [linked]. *)
Definition a_webgl (compiled linked : bool) : WebGL :=
  {| createShader_result := fun type =>
       match type with
       | VERTEX_SHADER => Object "vertex WebGLShader"
       | FRAGMENT_SHADER => Object "fragment WebGLShader"
       end;
     getShaderParameter_result := fun _ _ => compiled;
     getShaderInfoLog_result := fun _ => Str "ERROR: 0:1";
     createProgram_result := Object "WebGLProgram";
     getProgramParameter_result := fun _ _ => linked;
     getProgramInfoLog_result := fun _ => Str "link failed";
     drawing_context := a_context |}.

Definition a_document (gl : option WebGL) (id : string)
  : option HTMLCanvasElement :=
  if bool_decide (id = "glCanvas")
  then Some {| getContext_result := fun contextId =>
                 if bool_decide (contextId = "webgl") then gl else None |}
  else None.

(** ** The cheat sheet *)

(** The sequence that the cheat sheet gives for the triangle (its
    sections 3 and 4), with [program] as set up in its section 2. *)
Definition cheat_sheet_triangle (program : value)
  (gl : WebGLRenderingContext) : JS () :=
  triangleVertices ← Float32Array_from
    [Fin 0; Fin 0.5;
     Fin (-0.5); Fin (-0.5);
     Fin 0.5; Fin (-0.5)];
  buffer ← createBuffer gl;
  emit (gl_bindBuffer ARRAY_BUFFER buffer);;
  emit (gl_bufferData ARRAY_BUFFER triangleVertices STATIC_DRAW);;
  aPositionLocation ← getAttribLocation gl program "aPosition";
  emit (gl_enableVertexAttribArray aPositionLocation);;
  emit (gl_vertexAttribPointer aPositionLocation 2 FLOAT false 0 0);;
  emit (gl_clearColor (Fin 0) (Fin 0) (Fin 0) (Fin 1));;
  emit (gl_clear COLOR_BUFFER_BIT);;
  emit (gl_drawArrays TRIANGLES 0 (Fin 3)).

(** The call [e] with its attribute index, if it has one, set to [index]. *)
Definition with_attribute_index (index : value) (e : event) : event :=
  match e with
  | gl_enableVertexAttribArray _ => gl_enableVertexAttribArray index
  | gl_vertexAttribPointer _ size type normalized stride offset =>
      gl_vertexAttribPointer index size type normalized stride offset
  | _ => e
  end.

(** * Properties *)

(** ** Rounding *)

Lemma bpow_pos e : (0 < bpow e)%R.
Proof. apply powerRZ_lt. lra. Qed.

Lemma bpow_add e1 e2 : bpow (e1 + e2) = (bpow e1 * bpow e2)%R.
Proof. apply powerRZ_add. lra. Qed.

Lemma bpow_0 : bpow 0 = 1%R.
Proof. reflexivity. Qed.

Lemma bpow_1 : bpow 1 = 2%R.
Proof. unfold bpow. simpl. lra. Qed.

Lemma bpow_opp e : bpow (- e) = (/ bpow e)%R.
Proof. apply powerRZ_neg'. Qed.

Lemma bpow_cancel e : (bpow e * bpow (- e))%R = 1%R.
Proof. rewrite <- bpow_add, Z.add_opp_diag_r. apply bpow_0. Qed.

Lemma bpow_succ e : bpow (e + 1) = (2 * bpow e)%R.
Proof. rewrite bpow_add, bpow_1. ring. Qed.

Lemma bpow_pred e : bpow (e - 1) = (bpow e / 2)%R.
Proof.
  replace e with (e - 1 + 1) at 2 by lia. rewrite bpow_succ. field.
Qed.

Lemma bpow_nonneg_ge_1 e : 0 <= e -> (1 <= bpow e)%R.
Proof.
  intros He. pattern e. apply natlike_ind; [rewrite bpow_0; lra| |exact He].
  intros x Hx IH. unfold Z.succ. rewrite bpow_succ. lra.
Qed.

Lemma bpow_le e1 e2 : e1 <= e2 -> (bpow e1 <= bpow e2)%R.
Proof.
  intros H. replace e2 with (e1 + (e2 - e1)) by lia. rewrite bpow_add.
  pose proof (bpow_pos e1). pose proof (bpow_nonneg_ge_1 (e2 - e1) ltac:(lia)).
  apply Rle_trans with (bpow e1 * 1)%R; [lra|].
  apply Rmult_le_compat_l; lra.
Qed.

Lemma bpow_lt e1 e2 : e1 < e2 -> (bpow e1 < bpow e2)%R.
Proof.
  intros H. apply Rlt_le_trans with (bpow (e1 + 1)); [|apply bpow_le; lia].
  rewrite bpow_succ. pose proof (bpow_pos e1). lra.
Qed.

Lemma bpow_lt_inv e1 e2 : (bpow e1 < bpow e2)%R -> e1 < e2.
Proof.
  intros H. destruct (Z.lt_ge_cases e1 e2) as [|Hge]; [assumption|].
  apply bpow_le in Hge. lra.
Qed.

Lemma bpow_IZR e : 0 <= e -> bpow e = IZR (2 ^ e).
Proof.
  intros He. pattern e. apply natlike_ind; [reflexivity| |exact He].
  intros x Hx IH. unfold Z.succ. rewrite bpow_succ, IH, Z.pow_add_r by lia.
  rewrite mult_IZR. change (2 ^ 1) with 2. ring.
Qed.

Lemma bpow_exp e : bpow e = exp (IZR e * ln 2).
Proof. unfold bpow. rewrite powerRZ_Rpower by lra. reflexivity. Qed.

Lemma ln_2_pos : (0 < ln 2)%R.
Proof. pose proof ln_lt_2. lra. Qed.

Lemma mag_spec x : x <> 0%R -> (bpow (mag x - 1) <= Rabs x < bpow (mag x))%R.
Proof.
  intros Hx. unfold mag. set (l := (ln (Rabs x) / ln 2)%R).
  pose proof (Zfloor_bound l) as [Hlo Hhi]. pose proof ln_2_pos as H2.
  assert (0 < Rabs x)%R as Hpos by (by apply Rabs_pos_lt).
  assert (ln (Rabs x) = l * ln 2)%R as Hl by (unfold l; field; lra).
  replace (Zfloor l + 1 - 1) with (Zfloor l) by lia.
  rewrite !bpow_exp, plus_IZR.
  split; rewrite <- (exp_ln (Rabs x)) by exact Hpos; rewrite Hl.
  - destruct Hlo as [Hlo|Hlo]; [left; apply exp_increasing; nra|right].
    by rewrite Hlo.
  - apply exp_increasing. nra.
Qed.

Lemma mag_unique x e :
  (bpow (e - 1) <= Rabs x < bpow e)%R -> mag x = e.
Proof.
  intros [Hlo Hhi].
  assert (x <> 0%R) as Hx.
  { intros ->. rewrite Rabs_R0 in Hlo. pose proof (bpow_pos (e - 1)). lra. }
  destruct (mag_spec x Hx) as [Hlo' Hhi'].
  assert (e - 1 < mag x) by (apply bpow_lt_inv; lra).
  assert (mag x - 1 < e) by (apply bpow_lt_inv; lra).
  lia.
Qed.

Lemma mag_le x e : (Rabs x < bpow e)%R -> x <> 0%R -> mag x <= e.
Proof.
  intros Hlt Hx. destruct (mag_spec x Hx) as [Hlo _].
  assert (mag x - 1 < e) by (apply bpow_lt_inv; lra). lia.
Qed.

Lemma mag_ge x e : (bpow e <= Rabs x)%R -> e < mag x.
Proof.
  intros Hle.
  assert (x <> 0%R) as Hx.
  { intros ->. rewrite Rabs_R0 in Hle. pose proof (bpow_pos e). lra. }
  destruct (mag_spec x Hx) as [_ Hhi]. apply bpow_lt_inv. lra.
Qed.

Lemma ZnearestE_error x : (Rabs (IZR (ZnearestE x) - x) <= 1 / 2)%R.
Proof.
  unfold ZnearestE. pose proof (Zfloor_bound x) as [Hlo Hhi].
  destruct (Rlt_dec _ _); [apply Rabs_le; lra|].
  destruct (Rlt_dec _ _); [rewrite plus_IZR; apply Rabs_le; lra|].
  destruct (Z.even _); [|rewrite plus_IZR]; apply Rabs_le; lra.
Qed.

Lemma ZnearestE_IZR k : ZnearestE (IZR k) = k.
Proof.
  unfold ZnearestE. rewrite ZfloorZ.
  destruct (Rlt_dec _ _) as [|Hn]; [reflexivity|]. exfalso. apply Hn. lra.
Qed.

Lemma ZnearestE_le x k : (x <= IZR k)%R -> ZnearestE x <= k.
Proof.
  intros Hx. unfold ZnearestE. pose proof (Zfloor_bound x) as [Hlo Hhi].
  assert (Zfloor x <= k) as Hf by (apply le_IZR; lra).
  destruct (Z.eq_dec (Zfloor x) k) as [Heq|Hne].
  - rewrite Heq in *. destruct (Rlt_dec _ _) as [|Hn]; [lia|].
    exfalso. apply Hn. lra.
  - destruct (Rlt_dec _ _); [lia|]. destruct (Rlt_dec _ _); [lia|].
    destruct (Z.even _); lia.
Qed.

Lemma ZnearestE_ge x k : (IZR k <= x)%R -> k <= ZnearestE x.
Proof.
  intros Hx. unfold ZnearestE.
  assert (k <= Zfloor x) as Hf by (by apply Zfloor_lub).
  destruct (Rlt_dec _ _); [lia|]. destruct (Rlt_dec _ _); [lia|].
  destruct (Z.even _); lia.
Qed.

Lemma Rabs_bounds x y : (Rabs x <= y)%R -> (- y <= x <= y)%R.
Proof. unfold Rabs. destruct (Rcase_abs x); lra. Qed.

Lemma Zfloor_opp_nonint x :
  IZR (Zfloor x) <> x -> Zfloor (- x) = - Zfloor x - 1.
Proof.
  intros Hx. pose proof (Zfloor_bound x) as [Hlo Hhi].
  apply Zfloor_eq. rewrite minus_IZR, opp_IZR. lra.
Qed.

Lemma ZnearestE_opp x : ZnearestE (- x) = - ZnearestE x.
Proof.
  destruct (Req_dec_T (IZR (Zfloor x)) x) as [Hint|Hnon].
  - rewrite <- Hint, <- opp_IZR, !ZnearestE_IZR. reflexivity.
  - unfold ZnearestE. rewrite (Zfloor_opp_nonint x Hnon).
    pose proof (Zfloor_bound x) as [Hlo Hhi].
    rewrite minus_IZR, opp_IZR.
    replace (Z.even (- Zfloor x - 1)) with (negb (Z.even (Zfloor x))).
    2:{ replace (- Zfloor x - 1) with (- (Zfloor x + 1)) by lia.
        rewrite Z.even_opp, Z.even_add. by destruct (Z.even (Zfloor x)). }
    repeat destruct (Rlt_dec _ _); try lra; try lia.
    destruct (Z.even (Zfloor x)); simpl; lia.
Qed.

Section Rounding.
Variable f : format.
Hypothesis precision_pos : 1 <= precision f.

Lemma quantum_le x k :
  quantum_min f <= k -> (Rabs x <= bpow k)%R -> x <> 0%R -> quantum f x <= k.
Proof.
  intros Hk Hx Hx0. unfold quantum.
  assert (mag x <= k + 1).
  { apply mag_le; [|exact Hx0].
    pose proof (bpow_lt k (k + 1) ltac:(lia)). lra. }
  lia.
Qed.

Lemma round_finite_0 : round_finite f 0 = 0%R.
Proof.
  unfold round_finite. rewrite Rmult_0_l.
  change 0%R with (IZR 0). rewrite ZnearestE_IZR. simpl. ring.
Qed.

Lemma round_finite_scaled x :
  (x * bpow (- quantum f x) * bpow (quantum f x))%R = x.
Proof.
  rewrite Rmult_assoc, (Rmult_comm (bpow (- _))), bpow_cancel. ring.
Qed.

(** Rounding does not cross a power of two of the format. *)
Lemma round_finite_le x k :
  quantum_min f <= k -> (x <= bpow k)%R -> (round_finite f x <= bpow k)%R.
Proof.
  intros Hk Hx. unfold round_finite. set (q := quantum f x).
  pose proof (bpow_pos q) as Hq. pose proof (bpow_pos (- q)) as Hq'.
  pose proof (bpow_pos k) as Hkpos.
  destruct (Rle_dec x 0) as [Hneg|Hpos].
  - assert (ZnearestE (x * bpow (- q)) <= 0) as Hz
      by (apply ZnearestE_le; simpl; nra).
    apply IZR_le in Hz. simpl in Hz. nra.
  - assert (q <= k) as Hqk.
    { apply quantum_le; [exact Hk| |lra]. rewrite Rabs_pos_eq by lra. lra. }
    assert (ZnearestE (x * bpow (- q)) <= 2 ^ (k - q)) as Hz.
    { apply ZnearestE_le. rewrite <- bpow_IZR by lia.
      replace (k - q) with (k + - q) by lia. rewrite bpow_add. nra. }
    apply IZR_le in Hz. rewrite <- bpow_IZR in Hz by lia.
    replace (bpow k) with (bpow (k - q) * bpow q)%R
      by (rewrite <- bpow_add; f_equal; lia).
    nra.
Qed.

Lemma round_finite_ge x k :
  quantum_min f <= k -> (bpow k <= x)%R -> (bpow k <= round_finite f x)%R.
Proof.
  intros Hk Hx. unfold round_finite. set (q := quantum f x).
  pose proof (bpow_pos q) as Hq. pose proof (bpow_pos (- q)) as Hq'.
  pose proof (bpow_pos k) as Hkpos.
  destruct (Z.le_gt_cases q k) as [Hqk|Hqk].
  - assert (2 ^ (k - q) <= ZnearestE (x * bpow (- q))) as Hz.
    { apply ZnearestE_ge. rewrite <- bpow_IZR by lia.
      replace (k - q) with (k + - q) by lia. rewrite bpow_add. nra. }
    apply IZR_le in Hz. rewrite <- bpow_IZR in Hz by lia.
    replace (bpow k) with (bpow (k - q) * bpow q)%R
      by (rewrite <- bpow_add; f_equal; lia).
    nra.
  - assert (q = mag x - precision f) as Hqm by (unfold q, quantum in *; lia).
    assert (x <> 0%R) as Hx0 by lra.
    destruct (mag_spec x Hx0) as [Hlo _]. rewrite Rabs_pos_eq in Hlo by lra.
    assert (1 <= ZnearestE (x * bpow (- q))) as Hz.
    { apply ZnearestE_ge.
      apply Rle_trans with (bpow (mag x - 1) * bpow (- q))%R; [|nra].
      rewrite <- bpow_add. apply bpow_nonneg_ge_1. lia. }
    apply IZR_le in Hz. pose proof (bpow_le k q ltac:(lia)). nra.
Qed.


Lemma mag_opp x : mag (- x) = mag x.
Proof. unfold mag. by rewrite Rabs_Ropp. Qed.

Lemma round_finite_opp x : round_finite f (- x) = (- round_finite f x)%R.
Proof.
  unfold round_finite, quantum. rewrite mag_opp.
  rewrite Ropp_mult_distr_l_reverse, ZnearestE_opp, opp_IZR. ring.
Qed.

Lemma round_finite_abs_le x k :
  quantum_min f <= k -> (Rabs x <= bpow k)%R ->
  (Rabs (round_finite f x) <= bpow k)%R.
Proof.
  intros Hk Hx. apply Rabs_le. split.
  - apply Ropp_le_cancel. rewrite Ropp_involutive, <- round_finite_opp.
    apply round_finite_le; [exact Hk|].
    pose proof (Rabs_bounds x (bpow k) Hx). lra.
  - apply round_finite_le; [exact Hk|].
    pose proof (Rabs_bounds x (bpow k) Hx). lra.
Qed.

Lemma round_finite_abs_ge x k :
  quantum_min f <= k -> (bpow k <= Rabs x)%R ->
  (bpow k <= Rabs (round_finite f x))%R.
Proof.
  intros Hk Hx. destruct (Rle_dec 0 x) as [Hpos|Hneg].
  - rewrite Rabs_pos_eq in Hx by exact Hpos.
    pose proof (round_finite_ge x k Hk Hx). pose proof (bpow_pos k).
    rewrite Rabs_pos_eq; lra.
  - rewrite Rabs_left in Hx by lra.
    pose proof (round_finite_ge (- x) k Hk Hx) as H.
    rewrite round_finite_opp in H. pose proof (bpow_pos k).
    rewrite Rabs_left; lra.
Qed.

(** The error of rounding: half a unit in the last place. *)
Lemma round_finite_error x :
  (Rabs (round_finite f x - x)
   <= bpow (- precision f) * Rabs x + bpow (quantum_min f - 1))%R.
Proof.
  destruct (Req_dec_T x 0) as [->|Hx0].
  - rewrite round_finite_0, Rminus_diag, Rabs_R0.
    pose proof (bpow_pos (- precision f)).
    pose proof (bpow_pos (quantum_min f - 1)). nra.
  - unfold round_finite. set (q := quantum f x).
    set (m := (x * bpow (- q))%R).
    pose proof (bpow_pos q) as Hq. pose proof (ZnearestE_error m) as Hm.
    assert (x = m * bpow q)%R as Hx by (unfold m, q; by rewrite round_finite_scaled).
    assert (Rabs (IZR (ZnearestE m) * bpow q - x) <= bpow (q - 1))%R as Herr.
    { rewrite Hx.
      replace (m * bpow q * bpow (- q))%R with m
        by (rewrite Rmult_assoc, bpow_cancel; ring).
      fold m.
      replace (IZR (ZnearestE m) * bpow q - m * bpow q)%R
        with ((IZR (ZnearestE m) - m) * bpow q)%R by ring.
      rewrite Rabs_mult, (Rabs_pos_eq (bpow q)), bpow_pred by lra. nra. }
    apply Rle_trans with (1 := Herr).
    pose proof (bpow_pos (- precision f)). pose proof (Rabs_pos x).
    pose proof (bpow_pos (quantum_min f - 1)).
    destruct (mag_spec x Hx0) as [Hlo _].
    destruct (Z.le_gt_cases (mag x - precision f) (quantum_min f)) as [Hc|Hc].
    + replace q with (quantum_min f) by (unfold q, quantum; lia). nra.
    + replace q with (mag x - precision f) by (unfold q, quantum; lia).
      replace (mag x - precision f - 1) with (- precision f + (mag x - 1))
        by lia.
      rewrite bpow_add. nra.
Qed.

(** A number of the format is its own rounding. *)
Lemma round_finite_representable (m e : Z) :
  Z.abs m < 2 ^ precision f -> quantum_min f <= e ->
  round_finite f (IZR m * bpow e) = (IZR m * bpow e)%R.
Proof.
  intros Hm He. destruct (Z.eq_dec m 0) as [->|Hm0].
  { rewrite Rmult_0_l. apply round_finite_0. }
  set (x := (IZR m * bpow e)%R). pose proof (bpow_pos e) as Hepos.
  assert (x <> 0%R) as Hx0.
  { unfold x. apply Rmult_integral_contrapositive_currified; [|lra].
    by apply not_0_IZR. }
  assert (Rabs x < bpow (e + precision f))%R as Hx.
  { unfold x. rewrite Rabs_mult, (Rabs_pos_eq (bpow e)), <- abs_IZR by lra.
    rewrite (Z.add_comm e), bpow_add, (bpow_IZR (precision f)) by lia.
    apply Rmult_lt_compat_r; [lra|]. by apply IZR_lt. }
  assert (quantum f x <= e) as Hq.
  { pose proof (mag_le x _ Hx Hx0). unfold quantum. lia. }
  unfold round_finite. set (q := quantum f x) in *.
  assert (x * bpow (- q) = IZR (m * 2 ^ (e - q)))%R as ->.
  { unfold x. rewrite mult_IZR, <- bpow_IZR by lia.
    replace (e - q) with (e + - q) by lia. rewrite bpow_add. ring. }
  rewrite ZnearestE_IZR, mult_IZR, <- bpow_IZR by lia.
  unfold x. rewrite Rmult_assoc, <- bpow_add. do 2 f_equal. lia.
Qed.
End Rounding.

(** ** Arithmetic on numbers *)

Lemma precision_binary64 : 1 <= precision binary64.
Proof. by compute. Qed.

Lemma precision_binary32 : 1 <= precision binary32.
Proof. by compute. Qed.

Lemma round_Fin f x k :
  1 <= precision f -> quantum_min f <= k -> k < exponent_max f ->
  (Rabs x <= bpow k)%R -> round f x = Fin (round_finite f x).
Proof.
  intros Hp Hk Hmax Hx. unfold round.
  pose proof (round_finite_abs_le f Hp x k Hk Hx).
  pose proof (bpow_lt k (exponent_max f) Hmax).
  destruct (Rle_dec _ _); [lra|reflexivity].
Qed.

Lemma round_representable f (m e : Z) :
  1 <= precision f -> Z.abs m < 2 ^ precision f -> quantum_min f <= e ->
  e + precision f <= exponent_max f ->
  round f (IZR m * bpow e) = Fin (IZR m * bpow e).
Proof.
  intros Hp Hm He Hmax. unfold round.
  rewrite round_finite_representable by assumption.
  assert (Rabs (IZR m * bpow e) < bpow (exponent_max f))%R.
  { pose proof (bpow_pos e).
    rewrite Rabs_mult, (Rabs_pos_eq (bpow e)), <- abs_IZR by lra.
    apply Rlt_le_trans with (bpow (precision f) * bpow e)%R.
    - rewrite (bpow_IZR (precision f)) by lia.
      apply Rmult_lt_compat_r; [lra|]. by apply IZR_lt.
    - rewrite <- bpow_add. apply bpow_le. lia. }
  destruct (Rle_dec _ _); [lra|reflexivity].
Qed.

Lemma round_IZR f (m : Z) :
  1 <= precision f -> Z.abs m < 2 ^ precision f -> quantum_min f <= 0 ->
  precision f <= exponent_max f -> round f (IZR m) = Fin (IZR m).
Proof.
  intros Hp Hm Hq Hmax. rewrite <- (Rmult_1_r (IZR m)), <- bpow_0.
  apply round_representable; [assumption..|lia].
Qed.

Lemma round_half f (m : Z) :
  1 <= precision f -> Z.abs m < 2 ^ precision f -> quantum_min f <= -1 ->
  precision f - 1 <= exponent_max f -> round f (IZR m / 2) = Fin (IZR m / 2).
Proof.
  intros Hp Hm Hq Hmax.
  replace (IZR m / 2)%R with (IZR m * bpow (-1))%R
    by (unfold bpow; simpl; lra).
  apply round_representable; [assumption..|lia].
Qed.

Lemma Math_fround_0 : Math_fround (Fin 0) = Fin 0.
Proof. apply (round_IZR binary32 0); by compute. Qed.

Lemma Math_fround_IZR (m : Z) :
  Z.abs m < 2 ^ 24 -> Math_fround (Fin (IZR m)) = Fin (IZR m).
Proof.
  intros Hm. apply (round_IZR binary32 m); [by compute|exact Hm|by compute..].
Qed.

Lemma Math_fround_half : Math_fround (Fin 0.5) = Fin 0.5.
Proof.
  unfold Math_fround. replace 0.5%R with (IZR 1 / 2)%R by lra.
  apply round_half; by compute.
Qed.

Lemma Math_fround_minus_half : Math_fround (Fin (-0.5)) = Fin (-0.5).
Proof.
  unfold Math_fround. replace (-0.5)%R with (IZR (-1) / 2)%R by lra.
  apply round_half; by compute.
Qed.

(** ** The error of one sample *)

Lemma bpow_literal e : 0 <= e -> bpow (- e) = (/ IZR (2 ^ e))%R.
Proof. intros He. by rewrite bpow_opp, bpow_IZR. Qed.

Ltac literal e :=
  let v := eval vm_compute in (2 ^ e) in
  exact (eq_trans (bpow_literal e ltac:(lia))
           (eq_refl : (/ IZR (2 ^ e))%R = (/ IZR v)%R)).

Lemma bpow_m53 : bpow (-53) = (/ 9007199254740992)%R.
Proof. literal 53. Qed.

Lemma bpow_m1075 :
  bpow (-1075)
  = (/ IZR ltac:(let v := eval vm_compute in (2 ^ 1075) in exact v))%R.
Proof. literal 1075. Qed.


Lemma bpow_m24 : bpow (-24) = (/ 16777216)%R.
Proof. literal 24. Qed.

Lemma bpow_m150 :
  bpow (-150)
  = (/ IZR ltac:(let v := eval vm_compute in (2 ^ 150) in exact v))%R.
Proof. literal 150. Qed.

Lemma bpow_m149 :
  bpow (-149)
  = (/ IZR ltac:(let v := eval vm_compute in (2 ^ 149) in exact v))%R.
Proof. literal 149. Qed.

Lemma bpow_m47 : bpow (-47) = (/ 140737488355328)%R.
Proof. literal 47. Qed.

Lemma bpow_m23 : bpow (-23) = (/ 8388608)%R.
Proof. literal 23. Qed.

Lemma bpow_2 : bpow 2 = 4%R.
Proof. unfold bpow. simpl. lra. Qed.

Lemma bpow_3 : bpow 3 = 8%R.
Proof. unfold bpow. simpl. lra. Qed.

Lemma bpow_4 : bpow 4 = 16%R.
Proof. unfold bpow. simpl. lra. Qed.

Lemma round64_error x :
  (Rabs (round_finite binary64 x - x)
   <= bpow (-53) * Rabs x + bpow (-1075))%R.
Proof. exact (round_finite_error binary64 x). Qed.

Lemma round32_error x :
  (Rabs (round_finite binary32 x - x)
   <= bpow (-24) * Rabs x + bpow (-150))%R.
Proof. exact (round_finite_error binary32 x). Qed.

Lemma round64_Fin x k :
  -1074 <= k < 1024 -> (Rabs x <= bpow k)%R ->
  round binary64 x = Fin (round_finite binary64 x) /\
  (Rabs (round_finite binary64 x) <= bpow k)%R.
Proof.
  intros Hk Hx. split.
  - apply (round_Fin binary64 x k); [by compute|simpl; lia..|exact Hx].
  - apply round_finite_abs_le; [by compute|simpl; lia|exact Hx].
Qed.

Lemma round32_Fin x k :
  -149 <= k < 128 -> (Rabs x <= bpow k)%R ->
  round binary32 x = Fin (round_finite binary32 x) /\
  (Rabs (round_finite binary32 x) <= bpow k)%R.
Proof.
  intros Hk Hx. split.
  - apply (round_Fin binary32 x k); [by compute|simpl; lia..|exact Hx].
  - apply round_finite_abs_le; [by compute|simpl; lia|exact Hx].
Qed.

Lemma sin_abs_le x : (Rabs (sin x) <= Rabs x)%R.
Proof.
  assert (forall y, 0 <= y -> Rabs (sin y) <= y)%R as Hpos.
  { intros y [Hy|<-]; [|rewrite sin_0, Rabs_R0; lra].
    pose proof (sin_lt_x y Hy). pose proof (SIN_bound y) as [Hlo _].
    apply Rabs_le. split; [|lra].
    destruct (Rle_dec y PI) as [Hle|Hgt].
    - pose proof (sin_ge_0 y). lra.
    - pose proof PI2_3_2. lra. }
  destruct (Rle_dec 0 x) as [Hx|Hx].
  - rewrite (Rabs_pos_eq x) by exact Hx. by apply Hpos.
  - rewrite <- (Rabs_Ropp (sin x)), <- sin_neg, <- (Rabs_Ropp x).
    rewrite (Rabs_pos_eq (- x)) by lra. apply Hpos. lra.
Qed.

Lemma Rabs_half x : Rabs (x / 2) = (Rabs x / 2)%R.
Proof. unfold Rdiv. rewrite Rabs_mult, (Rabs_pos_eq (/ 2)); lra. Qed.

Lemma cos_lipschitz a b : (Rabs (cos a - cos b) <= Rabs (a - b))%R.
Proof.
  rewrite form2, !Rabs_mult.
  replace (Rabs (-2)) with 2%R by (rewrite Rabs_left; lra).
  pose proof (sin_abs_le ((a - b) / 2)) as H1. rewrite Rabs_half in H1.
  pose proof (SIN_bound ((a + b) / 2)) as H2. apply Rabs_le in H2.
  pose proof (Rabs_pos (sin ((a - b) / 2))).
  pose proof (Rabs_pos (sin ((a + b) / 2))). nra.
Qed.

Lemma sin_lipschitz a b : (Rabs (sin a - sin b) <= Rabs (a - b))%R.
Proof.
  rewrite form4, !Rabs_mult.
  replace (Rabs 2) with 2%R by (rewrite Rabs_pos_eq; lra).
  pose proof (sin_abs_le ((a - b) / 2)) as H1. rewrite Rabs_half in H1.
  pose proof (COS_bound ((a + b) / 2)) as H2. apply Rabs_le in H2.
  pose proof (Rabs_pos (sin ((a - b) / 2))).
  pose proof (Rabs_pos (cos ((a + b) / 2))). nra.
Qed.

Lemma bpow_m100 : bpow (-100) = (/ 1267650600228229401496703205376)%R.
Proof. literal 100. Qed.

(** The two smallest roundings errors, against constants of the analysis. *)
Lemma eta64_small : (0 < bpow (-1075) <= / 1267650600228229401496703205376)%R.
Proof.
  split; [apply bpow_pos|]. rewrite <- bpow_m100. by apply bpow_le.
Qed.

Lemma eta32_small :
  (4 * bpow (-1075) <= bpow (-150))%R /\ bpow (-149) = (2 * bpow (-150))%R.
Proof.
  split.
  - change (-150) with (-152 + 2). rewrite bpow_add, bpow_2.
    pose proof (bpow_le (-1075) (-152) ltac:(lia)). lra.
  - change (-149) with (-150 + 1). apply bpow_succ.
Qed.

(** One operation of binary64 on a real of magnitude at most [B]. *)
Lemma round64_op x B k :
  -1074 <= k < 1024 -> (Rabs x <= bpow k)%R -> (Rabs x <= B)%R ->
  exists y, round binary64 x = Fin y /\ (Rabs y <= bpow k)%R /\
    (Rabs (y - x) <= B / 9007199254740992 + bpow (-1075))%R.
Proof.
  intros Hk Hx HB. destruct (round64_Fin x k Hk Hx) as [Hy Hyk].
  exists (round_finite binary64 x). split; [exact Hy|]. split; [exact Hyk|].
  pose proof (round64_error x) as E. rewrite bpow_m53 in E. lra.
Qed.

Lemma round32_op x B k :
  -149 <= k < 128 -> (Rabs x <= bpow k)%R -> (Rabs x <= B)%R ->
  exists y, round binary32 x = Fin y /\ (Rabs y <= bpow k)%R /\
    (Rabs (y - x) <= B / 16777216 + bpow (-150))%R.
Proof.
  intros Hk Hx HB. destruct (round32_Fin x k Hk Hx) as [Hy Hyk].
  exists (round_finite binary32 x). split; [exact Hy|]. split; [exact Hyk|].
  pose proof (round32_error x) as E. rewrite bpow_m24 in E. lra.
Qed.

Lemma Rabs_scale (r a b e : R) :
  (Rabs (a - b) <= e)%R -> (Rabs (r * a - r * b) <= Rabs r * e)%R.
Proof.
  intros H. replace (r * a - r * b)%R with (r * (a - b))%R by ring.
  rewrite Rabs_mult. apply Rmult_le_compat_l; [apply Rabs_pos|exact H].
Qed.

Lemma Rabs_scale_le (r a : R) :
  (Rabs a <= 1)%R -> (Rabs (r * a) <= Rabs r)%R.
Proof.
  intros H. rewrite Rabs_mult. pose proof (Rabs_pos r).
  rewrite <- (Rmult_1_r (Rabs r)) at 2. by apply Rmult_le_compat_l.
Qed.

Lemma Rabs_sum (a b A B : R) :
  (Rabs a <= A)%R -> (Rabs b <= B)%R -> (Rabs (a + b) <= A + B)%R.
Proof. intros. apply Rle_trans with (1 := Rabs_triang a b). lra. Qed.

(** [angleStep], as the code computes it, and its distance to
    [2 pi / n]. *)
Lemma angleStep_error (n : Z) :
  1 <= n < 2 ^ 31 ->
  exists st, (Math_PI * Fin 2 / of_Z n)%js = Fin st /\
    (Rabs (st - 2 * PI * / IZR n)
     <= 25 / 9007199254740992 * / IZR n + bpow (-1075))%R.
Proof.
  intros Hn. pose proof PI_4 as Hpi4. pose proof PI2_3_2 as Hpi3.
  pose proof eta64_small as Heta.
  destruct (round64_op PI 4 2) as (p & HPI & Hp4 & Ep);
    [lia|rewrite bpow_2; rewrite Rabs_pos_eq; lra|rewrite Rabs_pos_eq; lra|].
  rewrite bpow_2 in Hp4. apply Rabs_bounds in Hp4, Ep.
  destruct (round64_op (p * 2) 8 3) as (a & Ha & Ha8 & Ea);
    [lia|rewrite bpow_3; apply Rabs_le; lra|apply Rabs_le; lra|].
  rewrite bpow_3 in Ha8. apply Rabs_bounds in Ha8, Ea.
  assert (1 <= IZR n)%R as HN by (apply IZR_le; lia).
  set (N := IZR n) in *.
  assert (0 < / N <= 1)%R as Hw.
  { split; [apply Rinv_0_lt_compat; lra|].
    rewrite <- Rinv_1. apply Rinv_le_contravar; lra. }
  set (w := (/ N)%R) in *.
  assert (Rabs (a * w) <= 8 * w)%R as Haw.
  { rewrite Rabs_mult, (Rabs_pos_eq w) by lra.
    apply Rmult_le_compat_r; [lra|]. apply Rabs_le. lra. }
  destruct (round64_op (a * w) (8 * w) 3) as (st & Hst & _ & Est);
    [lia|rewrite bpow_3; lra|exact Haw|].
  assert (Rabs (a * w - (2 * PI) * w) <= Rabs w * (17 / 9007199254740992))%R
    as Eaw.
  { rewrite !(Rmult_comm _ w). apply Rabs_scale. apply Rabs_le. lra. }
  rewrite (Rabs_pos_eq w) in Eaw by lra.
  exists st. split.
  - unfold Math_PI. rewrite HPI. unfold nmul. rewrite Ha.
    unfold of_Z, ndiv. fold N.
    destruct (Req_dec_T N 0) as [|_]; [lra|]. exact Hst.
  - apply Rabs_bounds in Est, Eaw. apply Rabs_le. lra.
Qed.

(** The angle of iteration [i], as the code computes it, and its
    distance to [i (2 pi / n)]. *)
Lemma angle_error (n i : Z) :
  1 <= n < 2 ^ 31 -> 0 <= i <= n ->
  exists t, (of_Z i * (Math_PI * Fin 2 / of_Z n))%js = Fin t /\
    (Rabs (t - IZR i * (2 * PI / IZR n)) <= bpow (-47))%R.
Proof.
  intros Hn Hi. pose proof PI_4 as Hpi4. pose proof PI2_3_2 as Hpi3.
  pose proof eta64_small as Heta.
  destruct (angleStep_error n Hn) as (st & Hst & Est). rewrite Hst.
  assert (1 <= IZR n <= 2147483648)%R as HN by (split; apply IZR_le; lia).
  assert (0 <= IZR i <= IZR n)%R as HI by (split; apply IZR_le; lia).
  set (N := IZR n) in *. set (I := IZR i) in *.
  assert (0 < / N <= 1)%R as Hw.
  { split; [apply Rinv_0_lt_compat; lra|].
    rewrite <- Rinv_1. apply Rinv_le_contravar; lra. }
  assert (N * / N = 1)%R as HNw by (apply Rinv_r; lra).
  set (w := (/ N)%R) in *.
  assert (0 <= I * w <= 1)%R as HIw.
  { split; [apply Rmult_le_pos; lra|]. rewrite <- HNw.
    apply Rmult_le_compat_r; lra. }
  assert (0 <= I * w * PI <= 4)%R as HIPw.
  { split; [apply Rmult_le_pos; lra|].
    apply Rle_trans with (1 * PI)%R; [apply Rmult_le_compat_r; lra|lra]. }
  assert (I * bpow (-1075) <= 2147483648 * bpow (-1075))%R as HIeta
    by (apply Rmult_le_compat_r; lra).
  assert (Rabs (I * st - I * (2 * PI * w)) <= 26 / 9007199254740992)%R as EIst.
  { apply Rle_trans with (1 := Rabs_scale I _ _ _ Est).
    rewrite (Rabs_pos_eq I) by lra. lra. }
  apply Rabs_bounds in EIst.
  destruct (round64_op (I * st) 9 4) as (t & Ht & _ & Et);
    [lia|rewrite bpow_4; apply Rabs_le; lra|apply Rabs_le; lra|].
  apply Rabs_bounds in Et.
  exists t. split.
  - unfold of_Z, nmul. fold I. exact Ht.
  - unfold Rdiv. fold w. rewrite bpow_m47. apply Rabs_le. lra.
Qed.

Lemma round64_0 : round binary64 0 = Fin 0.
Proof. apply (round_IZR binary64 0); by compute. Qed.

Lemma round64_1 : round binary64 1 = Fin 1.
Proof. apply (round_IZR binary64 1); by compute. Qed.

(** Iteration 0 has the angle [0], whose cosine and sine are exact. *)
Lemma angle_0 (n : Z) :
  1 <= n < 2 ^ 31 -> (of_Z 0 * (Math_PI * Fin 2 / of_Z n))%js = Fin 0.
Proof.
  intros Hn. destruct (angleStep_error n Hn) as (st & -> & _).
  unfold of_Z, nmul. rewrite Rmult_0_l. apply round64_0.
Qed.

Lemma Math_cos_0 : Math_cos (Fin 0) = Fin 1.
Proof. unfold Math_cos. rewrite cos_0. apply round64_1. Qed.

Lemma Math_sin_0 : Math_sin (Fin 0) = Fin 0.
Proof. unfold Math_sin. rewrite sin_0. apply round64_0. Qed.

(** 2^24 + 1 lies halfway between two numbers of binary32 and goes to
    the even one. *)
Lemma round_finite_16777217 : round_finite binary32 16777217 = 16777216%R.
Proof.
  assert (mag 16777217 = 25) as Hmag.
  { apply mag_unique. rewrite Rabs_pos_eq by lra.
    rewrite !bpow_IZR by lia. split; [apply IZR_le|apply IZR_lt]; lia. }
  unfold round_finite, quantum. rewrite Hmag.
  change (Z.max (25 - precision binary32) (quantum_min binary32)) with 1.
  rewrite bpow_opp, bpow_1. unfold ZnearestE.
  assert (Zfloor (16777217 * / 2) = 8388608) as ->
    by (apply Zfloor_eq; lra).
  destruct (Rlt_dec _ _) as [H|_]; [lra|].
  destruct (Rlt_dec _ _) as [H|_]; [lra|].
  change (Z.even 8388608) with true. lra.
Qed.

Lemma Math_fround_16777217 : Math_fround (Fin 16777217) = Fin 16777216.
Proof.
  unfold Math_fround.
  destruct (round32_Fin 16777217 25) as [-> _]; [lia| |].
  - rewrite Rabs_pos_eq by lra. rewrite bpow_IZR by lia.
    apply IZR_le. lia.
  - by rewrite round_finite_16777217.
Qed.

(** One stored coordinate: [fround (c + r * g~)], where [g~] is the
    binary64 rounding of a cosine or sine [g] taken at an angle close to
    the one whose cosine or sine is [g0]. *)
Lemma stored_coordinate (c r g g0 : R) (k : Z) :
  -150 <= k <= 125 ->
  (Rabs c <= bpow k)%R -> (Rabs r <= bpow k)%R ->
  (Rabs g <= 1)%R -> (Rabs (g - g0) <= bpow (-47))%R ->
  exists x, Math_fround (Fin c + Fin r * round binary64 g)%js = Fin x /\
    (Rabs x <= bpow (k + 1))%R /\
    (Rabs (x - (c + r * g0))
     <= (Rabs c + Rabs r) * bpow (-23) + bpow (-149))%R.
Proof.
  intros Hk Hc Hr Hg Hgg. pose proof eta64_small as Heta.
  pose proof eta32_small as [Heta32 H149].
  pose proof (Rabs_pos c) as Hc0. pose proof (Rabs_pos r) as Hr0.
  rewrite bpow_m47 in Hgg.
  destruct (round64_op g 1 0) as (gt & Hgt & Hgt1 & Egt);
    [lia|by rewrite bpow_0|exact Hg|].
  rewrite bpow_0 in Hgt1.
  assert (Rabs (gt - g0) <= 66 / 9007199254740992)%R as Egt'.
  { apply Rabs_bounds in Egt, Hgg. apply Rabs_le. lra. }
  pose proof (Rabs_scale_le r gt Hgt1) as Hrg.
  destruct (round64_op (r * gt) (Rabs r) k) as (p & Hp & Hpk & Ep);
    [lia|lra|exact Hrg|].
  pose proof (Rabs_scale r gt g0 _ Egt') as Erg.
  assert (Rabs p <= Rabs r + Rabs r / 9007199254740992 + bpow (-1075))%R
    as Hpr.
  { apply Rabs_bounds in Ep, Hrg. apply Rabs_le. lra. }
  set (B := (Rabs c + Rabs r + Rabs r / 9007199254740992 + bpow (-1075))%R).
  destruct (round64_op (c + p) B (k + 1)) as (s & Hs & Hsk & Es).
  { lia. }
  { rewrite bpow_succ. apply Rle_trans with (1 := Rabs_triang c p). lra. }
  { unfold B. apply Rle_trans with (1 := Rabs_triang c p). lra. }
  set (B' := (B + B / 9007199254740992 + bpow (-1075))%R).
  assert (Rabs (c + p) <= B)%R as Hcp
    by (unfold B; apply Rle_trans with (1 := Rabs_triang c p); lra).
  destruct (round32_op s B' (k + 1)) as (x & Hx & Hxk & Ex).
  { lia. }
  { exact Hsk. }
  { unfold B'. apply Rabs_bounds in Es, Hcp. apply Rabs_le. lra. }
  exists x. split; [|split; [exact Hxk|]].
  - rewrite Hgt. unfold nmul. rewrite Hp. unfold nadd. rewrite Hs.
    exact Hx.
  - rewrite bpow_m23, H149. unfold B', B in *.
    apply Rabs_bounds in Ex, Es, Ep, Erg. apply Rabs_le. lra.
Qed.

(** ** The loops *)

Lemma for_le_step i n body w :
  for_le i n body w =
  if decide (i <= n) then
    match body i w with
    | (Normal _, w') => for_le (i + 1) n body w'
    | (Throw e, w') => (Throw e, w')
    end
  else (Normal tt, w).
Proof.
  rewrite for_le_equation_1.
  destruct (decide (i <= n)); simpl; [|reflexivity].
  destruct (body i w) as [[[]|e] w']; reflexivity.
Qed.

Lemma for_lt_step i n body w :
  for_lt i n body w =
  if decide (i < n) then
    match body i w with
    | (Normal _, w') => for_lt (i + 1) n body w'
    | (Throw e, w') => (Throw e, w')
    end
  else (Normal tt, w).
Proof.
  rewrite for_lt_equation_1.
  destruct (decide (i < n)); simpl; [|reflexivity].
  destruct (body i w) as [[[]|e] w']; reflexivity.
Qed.

(** A loop that only pushes onto the newest array appends, in order,
    what each remaining iteration pushes. *)
Lemma for_le_push (f : Z -> list number) n h l :
  forall k i elems,
    Z.to_nat (n + 1 - i) = k ->
    for_le i n (fun j => push (length h) (f j)) (World (h ++ [elems]) l) =
    (Normal tt, World (h ++ [elems ++ (seqZ i (n + 1 - i) ≫= f)]) l).
Proof.
  induction k as [|k IH]; intros i elems Hk; rewrite for_le_step.
  - destruct (decide (i <= n)) as [Hle|Hgt]; [lia|].
    rewrite seqZ_nil by lia. simpl. by rewrite app_nil_r.
  - destruct (decide (i <= n)) as [Hle|Hgt]; [|lia].
    unfold push at 1. simpl.
    rewrite alter_app_r_alt, Nat.sub_diag by lia. simpl.
    rewrite IH by lia.
    rewrite (seqZ_cons i) by lia. simpl.
    replace (Z.succ i) with (i + 1) by lia.
    replace (Z.pred (n + 1 - i)) with (n + 1 - (i + 1)) by lia.
    by rewrite <- app_assoc.
Qed.

Lemma for_lt_push (f : Z -> list number) n h l :
  forall k i elems,
    Z.to_nat (n - i) = k ->
    for_lt i n (fun j => push (length h) (f j)) (World (h ++ [elems]) l) =
    (Normal tt, World (h ++ [elems ++ (seqZ i (n - i) ≫= f)]) l).
Proof.
  induction k as [|k IH]; intros i elems Hk; rewrite for_lt_step.
  - destruct (decide (i < n)) as [Hlt|Hge]; [lia|].
    rewrite seqZ_nil by lia. simpl. by rewrite app_nil_r.
  - destruct (decide (i < n)) as [Hlt|Hge]; [|lia].
    unfold push at 1. simpl.
    rewrite alter_app_r_alt, Nat.sub_diag by lia. simpl.
    rewrite IH by lia.
    rewrite (seqZ_cons i) by lia. simpl.
    replace (Z.succ i) with (i + 1) by lia.
    replace (Z.pred (n - i)) with (n - (i + 1)) by lia.
    by rewrite <- app_assoc.
Qed.

(** ** The generators in closed form *)

Lemma generateCircleVertices_run cx cy radius n w :
  generateCircleVertices cx cy radius n w =
  (Normal (Float32Array (Math_fround <$> circle_values cx cy radius n)),
   World (heap w ++ [circle_values cx cy radius n]) (log w)).
Proof.
  unfold generateCircleVertices, mbind, JS_bind, array_literal.
  cbv beta iota. cbn [heap log].
  change (fun i : Z => push (length (heap w)) ?b) with
    (fun i : Z => push (length (heap w)) (sample cx cy radius n i)).
  rewrite (for_le_push _ _ _ _ _ 0 _ eq_refl).
  unfold new_Float32Array. cbn [heap log].
  rewrite list_lookup_middle by reflexivity. cbn [default].
  by rewrite Z.sub_0_r.
Qed.

Lemma generatePolygonVertices_run cx cy radius n w :
  generatePolygonVertices cx cy radius n w =
  (Normal (Float32Array (Math_fround <$> polygon_values cx cy radius n)),
   World (heap w ++ [polygon_values cx cy radius n]) (log w)).
Proof.
  unfold generatePolygonVertices, mbind, JS_bind, array_literal.
  cbv beta iota. cbn [heap log].
  change (fun i : Z => push (length (heap w)) ?b) with
    (fun i : Z => push (length (heap w)) (sample cx cy radius n i)).
  rewrite (for_lt_push _ _ _ _ _ 0 _ eq_refl).
  unfold new_Float32Array. cbn [heap log].
  rewrite list_lookup_middle by reflexivity. cbn [default].
  by rewrite Z.sub_0_r.
Qed.

Lemma points_samples cx cy radius n (l : list Z) :
  points (l ≫= sample cx cy radius n) = sample_point cx cy radius n <$> l.
Proof.
  induction l as [|i l IH]; [reflexivity|].
  rewrite bind_cons, fmap_cons, <- IH. reflexivity.
Qed.

Lemma points_circle_values cx cy radius n :
  points (circle_values cx cy radius n) =
  (cx, cy) :: (sample_point cx cy radius n <$> seqZ 0 (n + 1)).
Proof. unfold circle_values. cbn [app points]. by rewrite points_samples. Qed.

Lemma points_polygon_values cx cy radius n :
  points (polygon_values cx cy radius n) =
  sample_point cx cy radius n <$> seqZ 0 n.
Proof. apply points_samples. Qed.

Lemma length_samples cx cy radius n (l : list Z) :
  length (l ≫= sample cx cy radius n) = (2 * length l)%nat.
Proof.
  induction l as [|i l IH]; [reflexivity|].
  rewrite bind_cons, length_app, IH. cbn [sample length]. lia.
Qed.

(** The points of a typed array are the stored points of the array it
    was filled from. *)
Lemma points_stored (l : list number) :
  points (Math_fround <$> l) = stored <$> points l.
Proof.
  assert (forall k (l : list number), (length l <= k)%nat ->
    points (Math_fround <$> l) = stored <$> points l) as H.
  { clear l. induction k as [|k IH]; intros [|x [|y l]] Hl; try reflexivity.
    - cbn [length] in Hl. lia.
    - rewrite !fmap_cons. cbn [points]. rewrite fmap_cons.
      f_equal. apply IH. cbn [length] in Hl. lia. }
  by apply (H (length l)).
Qed.

Lemma points_circle_stored cx cy radius n :
  points (Math_fround <$> circle_values cx cy radius n) =
  (Math_fround cx, Math_fround cy)
    :: (stored <$> (sample_point cx cy radius n <$> seqZ 0 (n + 1))).
Proof. by rewrite points_stored, points_circle_values. Qed.

Lemma points_polygon_stored cx cy radius n :
  points (Math_fround <$> polygon_values cx cy radius n) =
  stored <$> (sample_point cx cy radius n <$> seqZ 0 n).
Proof. by rewrite points_stored, points_polygon_values. Qed.

Lemma length_circle_values cx cy radius n :
  length (Math_fround <$> circle_values cx cy radius n)
  = (2 + 2 * Z.to_nat (n + 1))%nat.
Proof.
  rewrite length_fmap. unfold circle_values.
  rewrite length_app, length_samples, length_seqZ. reflexivity.
Qed.

Lemma length_polygon_values cx cy radius n :
  length (Math_fround <$> polygon_values cx cy radius n)
  = (2 * Z.to_nat n)%nat.
Proof.
  rewrite length_fmap. unfold polygon_values.
  by rewrite length_samples, length_seqZ.
Qed.

Lemma lookup_samples cx cy radius n len (i : Z) :
  0 <= i < len ->
  (sample_point cx cy radius n <$> seqZ 0 len) !! Z.to_nat i =
  Some (sample_point cx cy radius n i).
Proof.
  intros Hi. rewrite list_lookup_fmap, lookup_seqZ_lt by lia.
  cbn [fmap option_fmap option_map]. do 2 f_equal. lia.
Qed.

Lemma lookup_stored_samples cx cy radius n len (i : Z) :
  0 <= i < len ->
  (stored <$> (sample_point cx cy radius n <$> seqZ 0 len)) !! Z.to_nat i =
  Some (stored (sample_point cx cy radius n i)).
Proof.
  intros Hi. by rewrite list_lookup_fmap, lookup_samples by lia.
Qed.

Lemma contract_point_seam cx cy r n :
  n <> 0 -> contract_point cx cy r n n = contract_point cx cy r n 0.
Proof.
  intros Hn. unfold contract_point.
  assert (IZR n <> 0)%R as Hr by (intros H; apply eq_IZR_R0 in H; contradiction).
  replace (IZR n * (2 * PI / IZR n))%R with (2 * PI)%R by (field; exact Hr).
  rewrite Rmult_0_l. by rewrite cos_2PI, sin_2PI, cos_0, sin_0.
Qed.

(** ** The stored samples *)

Lemma within_weaken q tol tol' p :
  within q tol p -> (tol <= tol')%R -> within q tol' p.
Proof.
  destruct p as [[x| | |] [y| | |]]; try contradiction.
  unfold within. lra.
Qed.

(** The point stored for iteration [i] is finite and within the
    tolerance of the point of the contract. *)
Lemma stored_sample (cx cy r : R) (n i k : Z) :
  -150 <= k <= 125 ->
  (Rabs cx <= bpow k)%R -> (Rabs cy <= bpow k)%R -> (Rabs r <= bpow k)%R ->
  1 <= n < 2 ^ 31 -> 0 <= i <= n ->
  exists x y,
    stored (sample_point (Fin cx) (Fin cy) (Fin r) n i) = (Fin x, Fin y) /\
    (Rabs x <= bpow (k + 1))%R /\ (Rabs y <= bpow (k + 1))%R /\
    within (contract_point cx cy r n i) (tolerance cx cy r) (Fin x, Fin y).
Proof.
  intros Hk Hcx Hcy Hr Hn Hi.
  destruct (angle_error n i Hn Hi) as (t & Ht & Et).
  destruct (stored_coordinate cx r (cos t)
              (cos (IZR i * (2 * PI / IZR n))) k)
    as (x & Hx & Hxk & Ex); [assumption..| | |].
  { apply Rabs_le, COS_bound. }
  { apply Rle_trans with (2 := Et). apply cos_lipschitz. }
  destruct (stored_coordinate cy r (sin t)
              (sin (IZR i * (2 * PI / IZR n))) k)
    as (y & Hy & Hyk & Ey); [assumption..| | |].
  { apply Rabs_le, SIN_bound. }
  { apply Rle_trans with (2 := Et). apply sin_lipschitz. }
  exists x, y. split; [|split; [exact Hxk|split; [exact Hyk|]]].
  - unfold stored, sample_point. cbn [fst snd]. rewrite Ht.
    unfold Math_cos, Math_sin. by rewrite Hx, Hy.
  - unfold within, contract_point, tolerance. cbn [fst snd].
    pose proof (Rabs_pos cx). pose proof (Rabs_pos cy).
    rewrite bpow_m23 in *. split; lra.
Qed.

(** The centre, as it is stored. *)
Lemma stored_centre (cx cy r : R) :
  (Rabs cx <= bpow 125)%R -> (Rabs cy <= bpow 125)%R ->
  within (cx, cy) (tolerance cx cy r) (Math_fround (Fin cx), Math_fround (Fin cy)).
Proof.
  intros Hcx Hcy. pose proof eta32_small as [_ H149].
  pose proof (bpow_pos (-150)). pose proof (Rabs_pos r).
  pose proof (Rabs_pos cx). pose proof (Rabs_pos cy).
  destruct (round32_op cx (Rabs cx) 125) as (x & Hx & _ & Ex); [lia|lra..|].
  destruct (round32_op cy (Rabs cy) 125) as (y & Hy & _ & Ey); [lia|lra..|].
  unfold Math_fround. rewrite Hx, Hy. unfold within, tolerance.
  cbn [fst snd]. rewrite bpow_m23, H149. split; lra.
Qed.

Lemma close_within q tol p p' :
  within q tol p -> within q tol p' -> close (2 * tol) p p'.
Proof.
  destruct p as [[x| | |] [y| | |]]; try contradiction.
  destruct p' as [[x'| | |] [y'| | |]]; try contradiction.
  unfold within, close. intros [Hx Hy] [Hx' Hy'].
  apply Rabs_bounds in Hx, Hy, Hx', Hy'. split; apply Rabs_le; lra.
Qed.

(** Iteration 0 stores [(cx + r, cy)], each coordinate rounded twice. *)
Lemma sample_point_0 (cx cy : R) (n : Z) :
  1 <= n < 2 ^ 31 ->
  sample_point (Fin cx) (Fin cy) (Fin 1) n 0 =
  (round binary64 (cx + 1), round binary64 (cy + 0)).
Proof.
  intros Hn. unfold sample_point. rewrite (angle_0 n Hn).
  rewrite Math_cos_0, Math_sin_0. unfold nmul.
  rewrite Rmult_1_l, round64_1, Rmult_0_r, round64_0. reflexivity.
Qed.

Lemma round64_16777217 : round binary64 (16777216 + 1) = Fin 16777217.
Proof.
  replace (16777216 + 1)%R with (IZR 16777217) by lra.
  apply round_IZR; by compute.
Qed.

Lemma round64_0_plus_0 : round binary64 (0 + 0) = Fin 0.
Proof. rewrite Rplus_0_l. apply round64_0. Qed.

(** With a radius of zero every sample is the centre. *)
Lemma sample_point_radius_0 (n i : Z) :
  1 <= n < 2 ^ 31 -> 0 <= i <= n ->
  sample_point (Fin 0) (Fin 0) (Fin 0) n i = (Fin 0, Fin 0).
Proof.
  intros Hn Hi. unfold sample_point.
  destruct (angle_error n i Hn Hi) as (t & -> & _).
  unfold Math_cos, Math_sin.
  destruct (round64_Fin (cos t) 0) as [-> _];
    [lia|rewrite bpow_0; apply Rabs_le, COS_bound|].
  destruct (round64_Fin (sin t) 0) as [-> _];
    [lia|rewrite bpow_0; apply Rabs_le, SIN_bound|].
  unfold nmul. rewrite !Rmult_0_l, round64_0. unfold nadd.
  by rewrite round64_0_plus_0.
Qed.

(** ** The circle generator *)

(** The claim of C1 fails at the first point: the array is a
    [Float32Array], and a centre that binary32 does not hold is stored
    rounded.  For the centre [(16777217, 0)] the first point is
    [(16777216, 0)]. *)
Lemma circle_centre_is_rounded :
  (0 < 1)%R /\ 3 <= 3 /\
  exists a,
    returned (generateCircleVertices (Fin 16777217) (Fin 0) (Fin 1) 3
                (World [] []))
      = Some (Float32Array a) /\
    points a !! 0%nat = Some (Fin 16777216, Fin 0) /\
    points a !! 0%nat <> Some (Fin 16777217, Fin 0).
Proof.
  split; [lra|]. split; [lia|]. eexists.
  rewrite generateCircleVertices_run. split; [reflexivity|].
  rewrite points_circle_stored, Math_fround_16777217, Math_fround_0.
  split; [reflexivity|]. intros [= H]. lra.
Qed.

(** C1, amended. For finite [cx], [cy] and [r > 0] of magnitude at most
    [2^125] and an integer [n] with [3 <= n < 2^31],
    [generateCircleVertices(cx, cy, r, n)] returns [n + 2] points, all
    finite.  The first is the centre rounded to binary32, within the
    tolerance [(|cx| + |cy| + r) 2^-23 + 2^-149] of [(cx, cy)] in each
    coordinate; for every [i] in [0..n] the point at index [i + 1] is
    within that tolerance of
    [(cx + r cos (i (2 pi / n)), cy + r sin (i (2 pi / n)))]; and the
    points at index [1] and at index [n + 1] agree within twice the
    tolerance. *)
Theorem generateCircleVertices_contract (cx cy r : R) (n : Z) (w : world) :
  (Rabs cx <= bpow 125)%R -> (Rabs cy <= bpow 125)%R ->
  (0 < r <= bpow 125)%R -> 3 <= n < 2 ^ 31 ->
  exists a,
    returned (generateCircleVertices (Fin cx) (Fin cy) (Fin r) n w)
      = Some (Float32Array a) /\
    length (points a) = Z.to_nat (n + 2) /\
    (exists p, points a !! 0%nat = Some p /\
               p = (Math_fround (Fin cx), Math_fround (Fin cy)) /\
               within (cx, cy) (tolerance cx cy r) p) /\
    (forall i, 0 <= i <= n ->
       exists p, points a !! Z.to_nat (i + 1) = Some p /\
                 within (contract_point cx cy r n i) (tolerance cx cy r) p) /\
    (exists p q, points a !! 1%nat = Some p /\
                 points a !! Z.to_nat (n + 1) = Some q /\
                 close (2 * tolerance cx cy r) p q).
Proof.
  intros Hcx Hcy Hr Hn.
  exists (Math_fround <$> circle_values (Fin cx) (Fin cy) (Fin r) n).
  rewrite generateCircleVertices_run, points_circle_stored.
  assert (Rabs r <= bpow 125)%R as Hr' by (rewrite Rabs_pos_eq; lra).
  assert (forall i, 0 <= i <= n ->
    exists p,
      ((Math_fround (Fin cx), Math_fround (Fin cy))
         :: (stored <$> (sample_point (Fin cx) (Fin cy) (Fin r) n
                           <$> seqZ 0 (n + 1)))) !! Z.to_nat (i + 1)
      = Some p /\
      within (contract_point cx cy r n i) (tolerance cx cy r) p) as Hat.
  { intros i Hi. replace (Z.to_nat (i + 1)) with (S (Z.to_nat i)) by lia.
    rewrite lookup_cons, lookup_stored_samples by lia.
    destruct (stored_sample cx cy r n i 125) as (x & y & -> & _ & _ & Hin);
      [lia|assumption..|lia|lia|].
    by exists (Fin x, Fin y). }
  split; [reflexivity|]. split; [|split; [|split; [exact Hat|]]].
  - cbn [length]. rewrite !length_fmap, length_seqZ. lia.
  - eexists. split; [reflexivity|]. split; [reflexivity|].
    by apply stored_centre.
  - destruct (Hat 0 ltac:(lia)) as (p & Hp & Hpin).
    destruct (Hat n ltac:(lia)) as (q & Hq & Hqin).
    exists p, q. split; [exact Hp|]. split; [exact Hq|].
    rewrite contract_point_seam in Hqin by lia.
    by apply (close_within (contract_point cx cy r n 0)).
Qed.

Lemma generateCircleVertices_contract_witness :
  (Rabs 0 <= bpow 125)%R /\ (0 < 1 <= bpow 125)%R /\ 3 <= 3 < 2 ^ 31 /\
  exists a,
    returned (generateCircleVertices (Fin 0) (Fin 0) (Fin 1) 3 (World [] []))
      = Some (Float32Array a) /\
    length (points a) = 5%nat /\
    (forall i, 0 <= i <= 3 ->
       exists p, points a !! Z.to_nat (i + 1) = Some p /\
                 within (contract_point 0 0 1 3 i) (tolerance 0 0 1) p).
Proof.
  assert (Rabs 0 <= bpow 125)%R as H0
    by (rewrite Rabs_R0; apply Rlt_le, bpow_pos).
  assert (0 < 1 <= bpow 125)%R as H1
    by (split; [lra|by apply bpow_nonneg_ge_1]).
  split; [exact H0|]. split; [exact H1|]. split; [lia|].
  destruct (generateCircleVertices_contract 0 0 1 3 (World [] []) H0 H0 H1)
    as (a & Hret & Hlen & _ & Hat & _); [lia|].
  exists a. split; [exact Hret|]. split; [exact Hlen|exact Hat].
Defined.

(** ** The polygon generator *)

Lemma contract_point_square :
  contract_point 0 0 1 4 <$> [0; 1; 2; 3] =
  [(1, 0); (0, 1); (-1, 0); (0, -1)]%R.
Proof.
  unfold contract_point. cbn [fmap list_fmap].
  replace (0 * (2 * PI / 4))%R with 0%R by lra.
  replace (1 * (2 * PI / 4))%R with (PI / 2)%R by lra.
  replace (2 * (2 * PI / 4))%R with PI by lra.
  replace (3 * (2 * PI / 4))%R with (3 * (PI / 2))%R by lra.
  rewrite cos_0, sin_0, cos_PI2, sin_PI2, cos_PI, sin_PI, cos_3PI2, sin_3PI2.
  repeat f_equal; lra.
Qed.

Lemma tolerance_unit : (tolerance 0 0 1 <= 1 / 1000000)%R.
Proof.
  unfold tolerance. rewrite Rabs_R0, Rabs_R1, bpow_m23, bpow_m149. lra.
Qed.

(** The claim of C2 fails where binary32 cannot hold a point of the
    contract: for the centre [(16777216, 0)] and the radius 1 the point
    of angle 0 is [(16777217, 0)], and what the array holds is
    [(16777216, 0)]. *)
Lemma polygon_point_is_rounded :
  (0 < 1)%R /\ 3 <= 3 /\
  exists a,
    returned (generatePolygonVertices (Fin 16777216) (Fin 0) (Fin 1) 3
                (World [] []))
      = Some (Float32Array a) /\
    points a !! 0%nat = Some (Fin 16777216, Fin 0) /\
    contract_point 16777216 0 1 3 0 = (16777217, 0)%R /\
    points a !! 0%nat
      <> Some (finite_point (contract_point 16777216 0 1 3 0)).
Proof.
  split; [lra|]. split; [lia|]. eexists.
  rewrite generatePolygonVertices_run. split; [reflexivity|].
  rewrite points_polygon_stored.
  change (seqZ 0 3) with [0; 1; 2]. rewrite !fmap_cons.
  rewrite sample_point_0 by lia.
  rewrite round64_16777217, round64_0_plus_0.
  unfold stored. cbn [fst snd].
  rewrite Math_fround_16777217, Math_fround_0.
  assert (contract_point 16777216 0 1 3 0 = (16777217, 0)%R) as ->.
  { unfold contract_point. rewrite Rmult_0_l, cos_0, sin_0. f_equal; lra. }
  split; [reflexivity|]. split; [reflexivity|].
  unfold finite_point. cbn [fst snd]. intros [= H]. lra.
Qed.

(** C2, amended. For finite [cx], [cy] and [r > 0] of magnitude at most
    [2^125] and an integer [n] with [3 <= n < 2^31],
    [generatePolygonVertices(cx, cy, r, n)] returns exactly [n] points,
    all finite, the point at index [i] being within the tolerance
    [(|cx| + |cy| + r) 2^-23 + 2^-149] of
    [(cx + r cos (i (2 pi / n)), cy + r sin (i (2 pi / n)))] in each
    coordinate, for every [i] in [0..n-1]: no centre comes first and no
    sample of [i = n] comes last.  In particular
    [generatePolygonVertices(0, 0, 1, 4)] yields points within [1e-6]
    of [(1,0)], [(0,1)], [(-1,0)], [(0,-1)], in that order. *)
Theorem generatePolygonVertices_contract (cx cy r : R) (n : Z) (w : world) :
  (Rabs cx <= bpow 125)%R -> (Rabs cy <= bpow 125)%R ->
  (0 < r <= bpow 125)%R -> 3 <= n < 2 ^ 31 ->
  exists a,
    returned (generatePolygonVertices (Fin cx) (Fin cy) (Fin r) n w)
      = Some (Float32Array a) /\
    length (points a) = Z.to_nat n /\
    (forall i, 0 <= i < n ->
       exists p, points a !! Z.to_nat i = Some p /\
                 within (contract_point cx cy r n i) (tolerance cx cy r) p) /\
    (cx = 0%R -> cy = 0%R -> r = 1%R -> n = 4 ->
     Forall2 (fun q p => within q (1 / 1000000) p)
       [(1, 0); (0, 1); (-1, 0); (0, -1)]%R (points a)).
Proof.
  intros Hcx Hcy Hr Hn.
  exists (Math_fround <$> polygon_values (Fin cx) (Fin cy) (Fin r) n).
  rewrite generatePolygonVertices_run, points_polygon_stored.
  assert (Rabs r <= bpow 125)%R as Hr' by (rewrite Rabs_pos_eq; lra).
  assert (forall i, 0 <= i < n ->
    exists p,
      (stored <$> (sample_point (Fin cx) (Fin cy) (Fin r) n <$> seqZ 0 n))
        !! Z.to_nat i = Some p /\
      within (contract_point cx cy r n i) (tolerance cx cy r) p) as Hat.
  { intros i Hi. rewrite lookup_stored_samples by lia.
    destruct (stored_sample cx cy r n i 125) as (x & y & -> & _ & _ & Hin);
      [lia|assumption..|lia|lia|].
    by exists (Fin x, Fin y). }
  split; [reflexivity|]. split; [by rewrite !length_fmap, length_seqZ|].
  split; [exact Hat|].
  intros -> -> -> ->. rewrite <- contract_point_square.
  change [0; 1; 2; 3] with (seqZ 0 4).
  rewrite <- list_fmap_compose. apply Forall2_fmap, Forall_Forall2_diag.
  apply Forall_forall. intros i Hi%elem_of_seqZ. unfold compose.
  destruct (stored_sample 0 0 1 4 i 125) as (x & y & -> & _ & _ & Hin);
    [lia|assumption..|lia|lia|].
  apply (within_weaken _ _ _ _ Hin), tolerance_unit.
Qed.

Lemma generatePolygonVertices_contract_witness :
  (Rabs 0 <= bpow 125)%R /\ (0 < 1 <= bpow 125)%R /\ 3 <= 4 < 2 ^ 31 /\
  exists a,
    returned (generatePolygonVertices (Fin 0) (Fin 0) (Fin 1) 4 (World [] []))
      = Some (Float32Array a) /\
    length (points a) = 4%nat /\
    Forall2 (fun q p => within q (1 / 1000000) p)
      [(1, 0); (0, 1); (-1, 0); (0, -1)]%R (points a).
Proof.
  assert (Rabs 0 <= bpow 125)%R as H0
    by (rewrite Rabs_R0; apply Rlt_le, bpow_pos).
  assert (0 < 1 <= bpow 125)%R as H1
    by (split; [lra|by apply bpow_nonneg_ge_1]).
  split; [exact H0|]. split; [exact H1|]. split; [lia|].
  destruct (generatePolygonVertices_contract 0 0 1 4 (World [] []) H0 H0 H1)
    as (a & Hret & Hlen & _ & Hsquare); [lia|].
  exists a. split; [exact Hret|]. split; [exact Hlen|].
  apply Hsquare; reflexivity.
Defined.

(** ** No validation *)

Lemma returned_not_rejected {A : Type} (r : completion A * world) (a : A) :
  returned r = Some a -> ~ rejected r.
Proof.
  unfold returned, rejected. intros Hret [e He]. rewrite He in Hret. done.
Qed.

Lemma nmul_NaN_r a : (a * NaN)%js = NaN.
Proof. by destruct a. Qed.

Lemma nadd_NaN_r a : (a + NaN)%js = NaN.
Proof. by destruct a. Qed.

(** [Math.PI * 2] is a number between 4 and 8, close to [2 pi]. *)
Lemma two_pi :
  exists a, (Math_PI * Fin 2)%js = Fin a /\ (4 <= a <= 8)%R.
Proof.
  pose proof PI_4 as Hpi4. pose proof PI2_3_2 as Hpi3.
  destruct (round64_Fin PI 2) as [HPI Hp4];
    [lia|rewrite bpow_2; rewrite Rabs_pos_eq; lra|].
  rewrite bpow_2 in Hp4. apply Rabs_bounds in Hp4.
  assert (2 <= round_finite binary64 PI)%R as Hp2.
  { rewrite <- bpow_1. apply round_finite_ge; [by compute|by compute|].
    rewrite bpow_1. lra. }
  set (p := round_finite binary64 PI) in *.
  destruct (round64_Fin (p * 2) 3) as [Ha Ha8];
    [lia|rewrite bpow_3; apply Rabs_le; lra|].
  rewrite bpow_3 in Ha8. apply Rabs_bounds in Ha8.
  exists (round_finite binary64 (p * 2)). split.
  - unfold Math_PI. rewrite HPI. exact Ha.
  - split; [|lra]. rewrite <- bpow_2.
    apply round_finite_ge; [by compute|by compute|]. rewrite bpow_2. lra.
Qed.

(** With a count of zero the angle step is [2 pi / 0 = Infinity], the
    angle [0 * Infinity] is NaN, and so are both coordinates. *)
Lemma angleStep_zero : (Math_PI * Fin 2 / of_Z 0)%js = PInf.
Proof.
  destruct two_pi as (a & -> & Ha). unfold of_Z, ndiv.
  destruct (Req_dec_T 0 0) as [_|Hne]; [|contradiction].
  unfold scale_inf.
  destruct (Rlt_dec 0 a) as [_|Hn]; [reflexivity|lra].
Qed.

Lemma sample_point_zero cx cy radius :
  sample_point cx cy radius 0 0 = (NaN, NaN).
Proof.
  unfold sample_point. rewrite angleStep_zero.
  assert ((of_Z 0 * PInf)%js = NaN) as ->.
  { unfold of_Z, nmul, scale_inf.
    destruct (Rlt_dec 0 0) as [H|_]; [lra|].
    destruct (Rlt_dec 0 0) as [H|_]; [lra|reflexivity]. }
  unfold Math_cos, Math_sin. by rewrite !nmul_NaN_r, !nadd_NaN_r.
Qed.

(** The claim of C3 fails: with a radius of zero and two segments the
    circle generator is not rejected, it returns four points (the
    centre, then three samples that all fall on the centre). *)
Lemma invalid_parameters_accepted :
  invalid (Fin 0) 2 /\
  ~ rejected (generateCircleVertices (Fin 0) (Fin 0) (Fin 0) 2 (World [] [])) /\
  exists a,
    returned (generateCircleVertices (Fin 0) (Fin 0) (Fin 0) 2 (World [] []))
      = Some (Float32Array a) /\
    points a = [(Fin 0, Fin 0); (Fin 0, Fin 0); (Fin 0, Fin 0); (Fin 0, Fin 0)].
Proof.
  split; [right; lia|].
  rewrite generateCircleVertices_run. split.
  - eapply returned_not_rejected. reflexivity.
  - eexists. split; [reflexivity|].
    rewrite points_circle_stored.
    change (seqZ 0 (2 + 1)) with [0; 1; 2]. rewrite !fmap_cons.
    rewrite !sample_point_radius_0 by lia.
    unfold stored. cbn [fst snd]. rewrite Math_fround_0. reflexivity.
Qed.

(** C3, amended. The generators validate nothing: with a radius that
    is not positive or a count below three (as with any other input)
    the call is not rejected.  It returns an array: the circle
    generator one of [2 + 2 (n + 1)] values ([2] when [n < 0]) that
    begins with the centre as given, rounded to binary32; the polygon
    generator one of [2 n] values (none when [n < 0]). *)
Theorem generators_do_not_validate (cx cy radius : number) (n : Z)
  (w : world) :
  invalid radius n ->
  ~ rejected (generateCircleVertices cx cy radius n w) /\
  ~ rejected (generatePolygonVertices cx cy radius n w) /\
  (exists a,
     returned (generateCircleVertices cx cy radius n w)
       = Some (Float32Array a) /\
     length a = (2 + 2 * Z.to_nat (n + 1))%nat /\
     take 2 a = [Math_fround cx; Math_fround cy]) /\
  (exists a,
     returned (generatePolygonVertices cx cy radius n w)
       = Some (Float32Array a) /\
     length a = (2 * Z.to_nat n)%nat).
Proof.
  intros _.
  rewrite generateCircleVertices_run, generatePolygonVertices_run.
  split; [eapply returned_not_rejected; reflexivity|].
  split; [eapply returned_not_rejected; reflexivity|]. split.
  - eexists. split; [reflexivity|].
    split; [apply length_circle_values|reflexivity].
  - eexists. split; [reflexivity|apply length_polygon_values].
Qed.

Lemma generators_do_not_validate_witness :
  invalid (Fin 0) 2 /\
  ~ rejected (generateCircleVertices (Fin 0) (Fin 0) (Fin 0) 2 (World [] [])) /\
  ~ rejected (generatePolygonVertices (Fin 0) (Fin 0) (Fin 0) 2 (World [] [])) /\
  (exists a,
     returned (generatePolygonVertices (Fin 0) (Fin 0) (Fin 0) 2 (World [] []))
       = Some (Float32Array a) /\
     length a = 4%nat).
Proof.
  assert (invalid (Fin 0) 2) as Hinv by (right; lia).
  split; [exact Hinv|].
  destruct (generators_do_not_validate (Fin 0) (Fin 0) (Fin 0) 2
              (World [] []) Hinv) as (Hc & Hp & _ & Hlen).
  split; [exact Hc|]. split; [exact Hp|exact Hlen].
Defined.

(** C10. The generators are total and check nothing: for all numbers
    [cx], [cy], [radius] and every integer [n >= 0] the circle
    generator returns an array of [2 (n + 2)] values and the polygon
    generator one of [2 n] values; neither ends with an error, and
    each leaves the world as it was but for one array added to the
    heap.  For [n = 0] the circle generator's angle step is a division
    by zero, [Infinity], and the array it returns is the centre as
    stored followed by two NaN. *)
Theorem generators_total (cx cy radius : number) (n : Z) (w : world) :
  0 <= n ->
  (exists a h,
     generateCircleVertices cx cy radius n w
       = (Normal (Float32Array a), World (heap w ++ [h]) (log w)) /\
     length a = Z.to_nat (2 * (n + 2))) /\
  (exists a h,
     generatePolygonVertices cx cy radius n w
       = (Normal (Float32Array a), World (heap w ++ [h]) (log w)) /\
     length a = Z.to_nat (2 * n)) /\
  (n = 0 ->
   (Math_PI * Fin 2 / of_Z n)%js = PInf /\
   returned (generateCircleVertices cx cy radius n w)
     = Some (Float32Array [Math_fround cx; Math_fround cy; NaN; NaN])).
Proof.
  intros Hn.
  rewrite generateCircleVertices_run, generatePolygonVertices_run.
  split; [|split].
  - eexists _, _. split; [reflexivity|]. rewrite length_circle_values. lia.
  - eexists _, _. split; [reflexivity|]. rewrite length_polygon_values. lia.
  - intros ->. split; [apply angleStep_zero|].
    unfold circle_values.
    change (seqZ 0 (0 + 1)) with [0]. rewrite bind_cons.
    unfold sample. by rewrite sample_point_zero.
Qed.

Lemma generators_total_witness :
  0 <= 3 /\ 0 <= 0 /\
  (exists a,
     returned (generateCircleVertices (Fin 1) (Fin 2) (Fin 3) 3 (World [] []))
       = Some (Float32Array a) /\
     length a = 10%nat) /\
  (exists a,
     returned (generatePolygonVertices (Fin 1) (Fin 2) (Fin 3) 3 (World [] []))
       = Some (Float32Array a) /\
     length a = 6%nat) /\
  returned (generateCircleVertices (Fin 1) (Fin 2) (Fin 3) 0 (World [] []))
    = Some (Float32Array [Math_fround (Fin 1); Math_fround (Fin 2); NaN; NaN]).
Proof.
  split; [lia|]. split; [lia|].
  destruct (generators_total (Fin 1) (Fin 2) (Fin 3) 3 (World [] []))
    as ((c & hc & Hc & Hclen) & (p & hp & Hp & Hplen) & _); [lia|].
  destruct (generators_total (Fin 1) (Fin 2) (Fin 3) 0 (World [] []))
    as (_ & _ & Hnan); [lia|].
  split; [|split; [|apply Hnan; reflexivity]].
  - exists c. unfold returned. by rewrite Hc.
  - exists p. unfold returned. by rewrite Hp.
Defined.

(** C8. Two calls of a generator with the same arguments return arrays
    with the same contents, whatever the state of the program at each
    of the two calls; the calls add one array to the heap and leave
    the arrays that were there, and the log, as they were. *)
Theorem generators_deterministic (cx cy radius : number) (n : Z)
  (w1 w2 : world) :
  (exists a,
     returned (generateCircleVertices cx cy radius n w1) = Some (Float32Array a) /\
     returned (generateCircleVertices cx cy radius n w2) = Some (Float32Array a)) /\
  (exists a,
     returned (generatePolygonVertices cx cy radius n w1) = Some (Float32Array a) /\
     returned (generatePolygonVertices cx cy radius n w2) = Some (Float32Array a)) /\
  (exists a, (generateCircleVertices cx cy radius n w1).2
             = World (heap w1 ++ [a]) (log w1)) /\
  (exists a, (generatePolygonVertices cx cy radius n w1).2
             = World (heap w1 ++ [a]) (log w1)).
Proof.
  rewrite !generateCircleVertices_run, !generatePolygonVertices_run.
  repeat split; eexists; try split; reflexivity.
Qed.

(** ** Distance to the centre *)


Lemma distance_dist_euc (p q : R * R) :
  distance p q = dist_euc p.1 p.2 q.1 q.2.
Proof. unfold distance, dist_euc. f_equal. unfold Rsqr. ring. Qed.


Lemma distance_le_sum (p q : R * R) :
  (distance p q <= Rabs (p.1 - q.1) + Rabs (p.2 - q.2))%R.
Proof.
  unfold distance. set (a := (p.1 - q.1)%R). set (b := (p.2 - q.2)%R).
  pose proof (Rabs_pos a). pose proof (Rabs_pos b).
  apply Rsqr_incr_0_var; [|lra].
  rewrite Rsqr_sqrt by nra. unfold Rsqr.
  replace ((Rabs a + Rabs b) * (Rabs a + Rabs b))%R
    with (Rabs a * Rabs a + Rabs b * Rabs b + 2 * (Rabs a * Rabs b))%R by ring.
  fold (Rsqr (Rabs a)). fold (Rsqr (Rabs b)). rewrite <- !Rsqr_abs.
  unfold Rsqr. nra.
Qed.








(** ** The shape table *)

Lemma Float32Array_from_run elems w :
  Float32Array_from elems w =
  (Normal (Float32Array (Math_fround <$> elems)),
   World (heap w ++ [elems]) (log w)).
Proof.
  unfold Float32Array_from, mbind, JS_bind, array_literal, new_Float32Array.
  cbv beta iota. cbn [heap log].
  by rewrite list_lookup_middle by reflexivity.
Qed.

(** The literals of the table are numbers of binary32: the conversion
    keeps them as they are. *)
Lemma shapes_unfold :
  shapes =
  <["triangle" := Float32Array
      [Fin 0; Fin 0.5; Fin (-0.5); Fin (-0.5); Fin 0.5; Fin (-0.5)]]>
  (<["rectangle" := Float32Array
      [Fin (-0.5); Fin 0.5; Fin (-0.5); Fin (-0.5); Fin 0.5; Fin (-0.5);
       Fin (-0.5); Fin 0.5; Fin 0.5; Fin (-0.5); Fin 0.5; Fin 0.5]]>
  (<["circle" := Float32Array
      (Math_fround <$> circle_values (Fin 0) (Fin 0) (Fin 0.5) 50)]>
  (<["line" := Float32Array [Fin (-0.5); Fin 0; Fin 0.5; Fin 0]]>
  (<["polygon" := Float32Array
      (Math_fround <$> polygon_values (Fin 0) (Fin 0) (Fin 0.5) 6)]> ∅)))).
Proof.
  unfold shapes, geometry, mbind, JS_bind.
  rewrite !Float32Array_from_run, generateCircleVertices_run.
  rewrite Float32Array_from_run, generatePolygonVertices_run.
  rewrite !fmap_cons, !fmap_nil.
  by rewrite !Math_fround_0, !Math_fround_half, !Math_fround_minus_half.
Qed.

Lemma shapes_unregistered name : ~ registered name -> shapes !! name = None.
Proof.
  unfold registered. rewrite !elem_of_cons, elem_of_nil. intros H.
  rewrite shapes_unfold.
  rewrite !lookup_insert_ne; [apply lookup_empty|..]; intros <-; tauto.
Qed.

Lemma Get_own (o : gmap string value) name v :
  o !! name = Some v -> Get o name = v.
Proof. unfold Get. by intros ->. Qed.

Lemma Get_unknown name :
  ~ registered name -> ~ inherited name -> Get shapes name = Undefined.
Proof.
  intros Hreg Hinh. unfold Get. rewrite shapes_unregistered by exact Hreg.
  unfold inherited in Hinh. destruct (Object_prototype !! name); [|reflexivity].
  exfalso. apply Hinh. by eexists.
Qed.

(** Whatever is found under an unregistered name is an object. *)
Lemma Get_unregistered name :
  ~ registered name ->
  Get shapes name = Undefined \/ exists k, Get shapes name = Object k.
Proof.
  intros Hreg. unfold Get. rewrite shapes_unregistered by exact Hreg.
  destruct (Object_prototype !! name) as [v|] eqn:Hv; [|by left].
  right. unfold Object_prototype in Hv.
  apply elem_of_list_to_map_2, list_elem_of_fmap in Hv as (k & [= _ ->] & _).
  by eexists.
Qed.

(** ** drawShape *)

Lemma drawShape_not_found sc gl name w :
  ToBoolean (Get shapes name) = false ->
  drawShape sc gl name w =
  (Normal tt, World (heap w) (log w ++ [console_error [not_found_message name]])).
Proof. unfold drawShape. by intros ->. Qed.

Lemma drawShape_found sc gl name w :
  ToBoolean (Get shapes name) = true ->
  drawShape sc gl name w =
  drawShape_switch name (Get shapes name)
    (World (heap w) (log w ++ setup_calls sc gl (Get shapes name))).
Proof.
  unfold drawShape. intros ->.
  unfold mbind, JS_bind, createBuffer, getAttribLocation, emit, setup_calls.
  simpl. by rewrite <- !app_assoc.
Qed.

Lemma drawShape_switch_unregistered name v w :
  ~ registered name ->
  drawShape_switch name v w =
  (Normal tt,
   World (heap w) (log w ++ [console_error [Str "Unsupported shape type"]])).
Proof.
  unfold registered. rewrite !elem_of_cons, elem_of_nil. intros H.
  unfold drawShape_switch.
  rewrite !bool_decide_eq_false_2 by tauto. reflexivity.
Qed.

Lemma length_points_even (k : nat) :
  forall a : list number, length a = (2 * k)%nat -> length (points a) = k.
Proof.
  induction k as [|k IH]; intros [|x [|y a]] Ha; simpl in *; try lia.
  f_equal. apply IH. lia.
Qed.

Lemma half_of_even (k : nat) :
  (Z.of_nat k < 2 ^ 52) ->
  (of_nat (2 * k) / Fin 2)%js = of_nat k.
Proof.
  intros Hk. unfold of_nat, of_Z, ndiv.
  destruct (Req_dec_T 2 0) as [|_]; [lra|].
  replace (IZR (Z.of_nat (2 * k)) / 2)%R with (IZR (Z.of_nat k)).
  2:{ rewrite Nat2Z.inj_mul, mult_IZR. simpl. field. }
  apply round_IZR; [by compute| |by compute..].
  change (precision binary64) with 53. lia.
Qed.

(** A registered shape whose switch case draws with [mode]. *)
Lemma draws_once_intro sc gl name mode a (k : nat) :
  shapes !! name = Some (Float32Array a) ->
  (forall w, drawShape_switch name (Float32Array a) w
             = (count ← half_length (Float32Array a);
                emit (gl_drawArrays mode 0 count)) w) ->
  Z.of_nat k < 2 ^ 52 ->
  length a = (2 * k)%nat ->
  draws_once sc gl name mode.
Proof.
  intros Hlook Hcase Hk Hlen w. exists a.
  exists (setup_calls sc gl (Float32Array a)
          ++ [gl_drawArrays mode 0 (of_nat (length a) / Fin 2)%js]).
  split; [exact Hlook|].
  rewrite drawShape_found; rewrite (Get_own _ _ _ Hlook); [|reflexivity].
  rewrite Hcase. split; [|split].
  - unfold mbind, JS_bind, half_length, emit. simpl. by rewrite <- app_assoc.
  - reflexivity.
  - rewrite (length_points_even k a Hlen), Hlen. by apply half_of_even.
Qed.

(** C6. [drawShape] draws "triangle" and "rectangle" with
    [gl.TRIANGLES], "circle" with [gl.TRIANGLE_FAN], "line" with
    [gl.LINES] and "polygon" with [gl.LINE_LOOP]; in each case exactly
    one draw call is made, from vertex 0, with the length of the
    shape's coordinate array divided by 2 as count. *)
Theorem drawShape_draw_mode (sc : scope) (gl : WebGLRenderingContext) :
  draws_once sc gl "triangle" TRIANGLES /\
  draws_once sc gl "rectangle" TRIANGLES /\
  draws_once sc gl "circle" TRIANGLE_FAN /\
  draws_once sc gl "line" LINES /\
  draws_once sc gl "polygon" LINE_LOOP.
Proof.
  repeat split.
  - eapply (draws_once_intro _ _ _ _ _ 3); rewrite ?shapes_unfold; reflexivity.
  - eapply (draws_once_intro _ _ _ _ _ 6); rewrite ?shapes_unfold; reflexivity.
  - eapply (draws_once_intro _ _ _ _ _ 52); rewrite ?shapes_unfold;
      [reflexivity..|].
    by rewrite length_circle_values.
  - eapply (draws_once_intro _ _ _ _ _ 2); rewrite ?shapes_unfold; reflexivity.
  - eapply (draws_once_intro _ _ _ _ _ 6); rewrite ?shapes_unfold;
      [reflexivity..|].
    by rewrite length_polygon_values.
Qed.

(** Settles [~ registered s] for a literal [s]. *)
Ltac not_registered :=
  unfold registered; rewrite !elem_of_cons, elem_of_nil;
  let H := fresh "H" in
  intros H; repeat (destruct H as [H|H]; [discriminate H|]); exact H.

Lemma not_registered_toString : ~ registered "toString".
Proof. not_registered. Qed.

(** What [drawShape] does with a name that is not registered: it
    returns without throwing, draws nothing, and the last thing it does
    is to log an error.  When the name is not inherited from
    [Object.prototype] either, the lookup fails and [drawShape] returns
    at once: the error message is its only effect. *)
Lemma drawShape_unregistered (sc : scope) (gl : WebGLRenderingContext)
  (name : string) (w : world) :
  ~ registered name ->
  (exists calls,
     drawShape sc gl name w = (Normal tt, World (heap w) (log w ++ calls)) /\
     draw_calls calls = [] /\
     exists args, last calls = Some (console_error args)) /\
  (~ inherited name ->
   drawShape sc gl name w =
   (Normal tt,
    World (heap w) (log w ++ [console_error [not_found_message name]]))).
Proof.
  intros Hreg. split.
  - destruct (Get_unregistered name Hreg) as [HGet|[k HGet]].
    + exists [console_error [not_found_message name]].
      rewrite drawShape_not_found by (by rewrite HGet).
      split; [reflexivity|]. split; [reflexivity|]. by eexists.
    + exists (setup_calls sc gl (Object k)
              ++ [console_error [Str "Unsupported shape type"]]).
      rewrite drawShape_found; rewrite HGet; [|reflexivity].
      rewrite drawShape_switch_unregistered by exact Hreg. simpl.
      rewrite <- app_assoc.
      split; [reflexivity|]. split; [reflexivity|]. by eexists.
  - intros Hinh. apply drawShape_not_found.
    by rewrite Get_unknown.
Qed.

Example drawShape_hexagon :
  drawShape a_scope a_context "hexagon" (World [] []) =
  (Normal tt, World [] [console_error [not_found_message "hexagon"]]).
Proof.
  assert (~ registered "hexagon") as Hreg by not_registered.
  apply (proj2 (drawShape_unregistered a_scope a_context "hexagon"
                  (World [] []) Hreg)).
  intros [v Hv]. discriminate Hv.
Qed.

(** C7.  The early return of [drawShape] misses the names that [shapes]
    inherits.  "toString" is not a registered shape, yet the lookup
    [shapes["toString"]] finds the inherited function, which is truthy:
    [drawShape] goes on to create, bind and fill a buffer, and only the
    [default] case of the switch reports the name. *)
Theorem drawShape_toString_creates_buffer :
  ~ registered "toString" /\
  Get shapes "toString" = Object "toString" /\
  drawShape a_scope a_context "toString" (World [] []) =
    (Normal tt,
     World [] (setup_calls a_scope a_context (Object "toString")
               ++ [console_error [Str "Unsupported shape type"]])) /\
  existsb is_buffer_call
    (setup_calls a_scope a_context (Object "toString")) = true.
Proof.
  assert (Get shapes "toString" = Object "toString") as HGet.
  { unfold Get.
    by rewrite (shapes_unregistered _ not_registered_toString). }
  split; [exact not_registered_toString|]. split; [exact HGet|].
  split; [|reflexivity].
  rewrite drawShape_found; rewrite HGet; [|reflexivity].
  by rewrite (drawShape_switch_unregistered _ _ _ not_registered_toString).
Qed.

Lemma drawShape_switch_calls name v w :
  exists c calls,
    drawShape_switch name v w = (c, World (heap w) (log w ++ calls)) /\
    attribute_indices calls = [].
Proof.
  assert (forall mode,
    exists c calls,
      (count ← half_length v; emit (gl_drawArrays mode 0 count)) w
        = (c, World (heap w) (log w ++ calls)) /\
      attribute_indices calls = []) as Hdraw.
  { intros mode. destruct v; simpl; unfold mbind, JS_bind; simpl;
      try (eexists _, [_]; split; reflexivity).
    exists (Throw (Object "TypeError")), []. rewrite app_nil_r.
    by destruct w. }
  unfold drawShape_switch.
  destruct (bool_decide (name = "triangle") || bool_decide (name = "rectangle"));
    [apply Hdraw|].
  destruct (bool_decide (name = "circle")); [apply Hdraw|].
  destruct (bool_decide (name = "line")); [apply Hdraw|].
  destruct (bool_decide (name = "polygon")); [apply Hdraw|].
  eexists _, [_]. split; reflexivity.
Qed.

(** C9. [drawShape] binds the result of [gl.getAttribLocation] to
    [aPositionLocation] and never uses it: what it does is the same
    whatever that call returns, and the index that both
    [gl.enableVertexAttribArray] and [gl.vertexAttribPointer] receive is
    the value of [location], a name that the source does not declare
    (these two calls are made whenever the lookup of the shape finds
    something, after the call of [gl.getAttribLocation]). *)
Theorem drawShape_ignores_aPositionLocation (sc : scope) (buffer : value)
  (answer1 answer2 : value -> string -> value) (name : string) (w : world) :
  drawShape sc (Build_WebGLRenderingContext buffer answer1) name w =
  drawShape sc (Build_WebGLRenderingContext buffer answer2) name w /\
  exists calls,
    (drawShape sc (Build_WebGLRenderingContext buffer answer1) name w).2
      = World (heap w) (log w ++ calls) /\
    attribute_indices calls =
      (if ToBoolean (Get shapes name) then [location sc; location sc] else []) /\
    (gl_getAttribLocation (program sc) "aPosition" ∈ calls
     <-> ToBoolean (Get shapes name) = true).
Proof.
  destruct (ToBoolean (Get shapes name)) eqn:Hfound.
  - rewrite !drawShape_found by exact Hfound. split; [reflexivity|].
    set (gl := Build_WebGLRenderingContext buffer answer1).
    destruct (drawShape_switch_calls name (Get shapes name)
      (World (heap w) (log w ++ setup_calls sc gl (Get shapes name))))
      as (c & calls & -> & Hnone).
    exists (setup_calls sc gl (Get shapes name) ++ calls).
    cbn [snd heap log]. rewrite <- app_assoc. split; [reflexivity|]. split.
    + unfold attribute_indices in *. rewrite omap_app, Hnone. reflexivity.
    + split; [done|]. intros _. apply elem_of_app. left.
      unfold setup_calls. rewrite !elem_of_cons. tauto.
  - rewrite !drawShape_not_found by exact Hfound. split; [reflexivity|].
    eexists. split; [reflexivity|]. split; [reflexivity|].
    rewrite list_elem_of_singleton. split; [discriminate|discriminate].
Qed.

(** ** The fixed shapes *)

Lemma rectangle_covers_square (p : R * R) :
  in_square 0.5 p <->
  in_triangle (-0.5, 0.5)%R (-0.5, -0.5)%R (0.5, -0.5)%R p \/
  in_triangle (-0.5, 0.5)%R (0.5, -0.5)%R (0.5, 0.5)%R p.
Proof.
  destruct p as [x y]. unfold in_square, in_triangle, cross. cbn [fst snd].
  split.
  - intros [Hx Hy]. destruct (Rle_dec (x + y) 0); [left|right]; lra.
  - intros [H|H]; lra.
Qed.

(** C5. The triangle is three points: the apex [(0, 0.5)], above the
    base corners [(-0.5, -0.5)] and [(0.5, -0.5)].  The rectangle is six
    points, two triangles wound counter-clockwise that together cover
    exactly the square of half-extent 0.5 around the origin.  The line
    is the two points [(-0.5, 0)] and [(0.5, 0)]: a horizontal segment
    of length 1 whose midpoint is the origin. *)
Theorem fixed_shapes :
  (exists a apex left right,
     shapes !! "triangle" = Some (Float32Array a) /\
     length (points a) = 3%nat /\
     (apex, left, right) = ((0, 0.5), (-0.5, -0.5), (0.5, -0.5))%R /\
     points a = finite_point <$> [apex; left; right] /\
     (left.2 = right.2 /\ left.2 < apex.2)%R) /\
  (exists a tl bl br tr,
     shapes !! "rectangle" = Some (Float32Array a) /\
     length (points a) = 6%nat /\
     (tl, bl, br, tr) = ((-0.5, 0.5), (-0.5, -0.5), (0.5, -0.5), (0.5, 0.5))%R /\
     points a = finite_point <$> [tl; bl; br; tl; br; tr] /\
     counter_clockwise tl bl br /\
     counter_clockwise tl br tr /\
     (forall p, in_square 0.5 p <->
                in_triangle tl bl br p \/ in_triangle tl br tr p)) /\
  (exists a p q,
     shapes !! "line" = Some (Float32Array a) /\
     (p, q) = ((-0.5, 0), (0.5, 0))%R /\
     points a = finite_point <$> [p; q] /\
     p.2 = q.2 /\
     distance p q = 1%R /\
     midpoint p q = (0, 0)%R).
Proof.
  rewrite shapes_unfold. split; [|split].
  - eexists _, _, _, _. split; [reflexivity|]. split; [reflexivity|].
    split; [reflexivity|]. split; [reflexivity|]. cbn [fst snd]. lra.
  - eexists _, _, _, _, _. split; [reflexivity|]. split; [reflexivity|].
    split; [reflexivity|]. split; [reflexivity|].
    split; [|split; [|exact rectangle_covers_square]].
    + unfold counter_clockwise, cross. cbn [fst snd]. lra.
    + unfold counter_clockwise, cross. cbn [fst snd]. lra.
  - eexists _, _, _. split; [reflexivity|]. split; [reflexivity|].
    split; [reflexivity|]. split; [reflexivity|]. split.
    + unfold distance. cbn [fst snd].
      replace ((-0.5 - 0.5) ^ 2 + (0 - 0) ^ 2)%R with 1%R by lra.
      apply sqrt_1.
    + unfold midpoint. cbn [fst snd]. f_equal; lra.
Qed.

(** * Further properties of the code *)

(** ** Counts outside the contract *)

(** X1. With a negative count no loop runs: the circle generator
    returns the centre alone, as a [Float32Array] stores it, and the
    polygon generator the empty array.  Neither call is rejected. *)
Theorem generators_without_iterations (cx cy radius : number) (n : Z)
  (w : world) :
  n < 0 ->
  returned (generateCircleVertices cx cy radius n w)
    = Some (Float32Array [Math_fround cx; Math_fround cy]) /\
  returned (generatePolygonVertices cx cy radius n w)
    = Some (Float32Array []).
Proof.
  intros Hn. rewrite generateCircleVertices_run, generatePolygonVertices_run.
  unfold circle_values, polygon_values. by rewrite !seqZ_nil by lia.
Qed.

Lemma generators_without_iterations_witness :
  -1 < 0 /\
  returned (generateCircleVertices (Fin 1) (Fin 2) (Fin 3) (-1) (World [] []))
    = Some (Float32Array [Fin 1; Fin 2]) /\
  returned (generatePolygonVertices (Fin 1) (Fin 2) (Fin 3) (-1) (World [] []))
    = Some (Float32Array []).
Proof.
  split; [lia|].
  destruct (generators_without_iterations (Fin 1) (Fin 2) (Fin 3) (-1)
              (World [] [])) as [Hc Hp]; [lia|].
  rewrite (Math_fround_IZR 1), (Math_fround_IZR 2) in Hc by lia.
  split; [exact Hc|exact Hp].
Defined.



(** ** The geometry of the stored samples *)

Lemma IZR_count_pos (n : Z) : 1 <= n -> (1 <= IZR n)%R.
Proof. intros Hn. by apply IZR_le in Hn. Qed.

Lemma distance_contract_points cx cy r n i j :
  distance (contract_point cx cy r n i) (contract_point cx cy r n j) =
  sqrt (2 * r ^ 2
        * (1 - cos (IZR i * (2 * PI / IZR n) - IZR j * (2 * PI / IZR n))))%R.
Proof.
  unfold distance, contract_point. cbn [fst snd].
  set (a := (IZR i * (2 * PI / IZR n))%R).
  set (b := (IZR j * (2 * PI / IZR n))%R).
  f_equal. rewrite cos_minus.
  replace ((cx + r * cos a - (cx + r * cos b)) ^ 2
           + (cy + r * sin a - (cy + r * sin b)) ^ 2)%R
    with (r ^ 2 * (Rsqr (sin a) + Rsqr (cos a))
          + r ^ 2 * (Rsqr (sin b) + Rsqr (cos b))
          - 2 * r ^ 2 * (cos a * cos b + sin a * sin b))%R
    by (unfold Rsqr; ring).
  rewrite !sin2_cos2. ring.
Qed.

Lemma chord_of_one_step (r : R) (n : Z) (t : R) :
  (0 <= r)%R -> 1 <= n -> cos t = cos (2 * PI / IZR n) ->
  sqrt (2 * r ^ 2 * (1 - cos t))%R = (2 * r * sin (PI / IZR n))%R.
Proof.
  intros Hr Hn ->. pose proof (IZR_count_pos n Hn) as Hn1.
  replace (2 * PI / IZR n)%R with (2 * (PI / IZR n))%R by (field; lra).
  rewrite cos_2a_sin.
  replace (2 * r ^ 2 * (1 - (1 - 2 * sin (PI / IZR n) * sin (PI / IZR n))))%R
    with ((2 * r * sin (PI / IZR n)) ^ 2)%R by ring.
  apply sqrt_pow2.
  assert (0 <= sin (PI / IZR n))%R as Hsin.
  { pose proof PI_RGT_0. apply sin_ge_0.
    - apply Rlt_le, Rdiv_lt_0_compat; lra.
    - assert (/ IZR n <= / 1)%R by (apply Rinv_le_contravar; lra).
      rewrite Rinv_1 in *. unfold Rdiv. nra. }
  nra.
Qed.

Lemma side_length cx cy r n i j :
  (0 <= r)%R -> 1 <= n -> (j = i + 1 \/ (i = n - 1 /\ j = 0)) ->
  distance (contract_point cx cy r n i) (contract_point cx cy r n j)
  = (2 * r * sin (PI / IZR n))%R.
Proof.
  intros Hr Hn Hij. rewrite distance_contract_points.
  apply chord_of_one_step; [exact Hr|exact Hn|].
  pose proof (IZR_count_pos n Hn) as Hn1.
  destruct Hij as [->|[-> ->]].
  - rewrite plus_IZR.
    replace (IZR i * (2 * PI / IZR n) - (IZR i + 1) * (2 * PI / IZR n))%R
      with (- (2 * PI / IZR n))%R by ring.
    apply cos_neg.
  - rewrite minus_IZR.
    replace ((IZR n - 1) * (2 * PI / IZR n) - 0 * (2 * PI / IZR n))%R
      with (2 * PI - 2 * PI / IZR n)%R by (field; lra).
    rewrite cos_minus, cos_2PI, sin_2PI. ring.
Qed.

Lemma distance_symmetric (p q : R * R) : distance p q = distance q p.
Proof. rewrite !distance_dist_euc. apply distance_symm. Qed.

Lemma distance_four (p p' q q' : R * R) :
  (distance p p' <= distance p q + distance q q' + distance q' p')%R.
Proof.
  rewrite !distance_dist_euc.
  pose proof (triangle p.1 p.2 p'.1 p'.2 q.1 q.2).
  pose proof (triangle q.1 q.2 p'.1 p'.2 q'.1 q'.2). lra.
Qed.

(** Moving both ends of a segment by at most [tol] in each coordinate
    changes its length by at most [4 tol]. *)
Lemma distance_within (q q' : R * R) (tol x y x' y' : R) :
  within q tol (Fin x, Fin y) -> within q' tol (Fin x', Fin y') ->
  (Rabs (distance (x, y) (x', y') - distance q q') <= 4 * tol)%R.
Proof.
  unfold within. intros [Hx Hy] [Hx' Hy'].
  pose proof (distance_four (x, y) (x', y') q q') as H1.
  pose proof (distance_four q q' (x, y) (x', y')) as H2.
  rewrite (distance_symmetric q (x, y)) in H2.
  rewrite (distance_symmetric q' (x', y')) in H1.
  pose proof (distance_le_sum (x, y) q) as H3.
  pose proof (distance_le_sum (x', y') q') as H4.
  cbn [fst snd] in H3, H4. apply Rabs_le. lra.
Qed.

Lemma within_bounded cx cy r n i tol p :
  (0 <= r)%R -> within (contract_point cx cy r n i) tol p ->
  within (cx, cy) (r + tol) p.
Proof.
  destruct p as [[x| | |] [y| | |]]; try contradiction.
  unfold within, contract_point. cbn [fst snd]. intros Hr [Hx Hy].
  set (t := (IZR i * (2 * PI / IZR n))%R) in *.
  pose proof (COS_bound t). pose proof (SIN_bound t).
  apply Rabs_bounds in Hx, Hy. split; apply Rabs_le; nra.
Qed.

(** X4. The polygon is regular up to rounding.  For finite [cx], [cy]
    and [r >= 0] of magnitude at most [2^125] and [1 <= n < 2^31]
    sides, every side has the length [2 r sin (pi / n)] up to four
    times the tolerance of a stored coordinate, the side that closes
    the loop from the last point back to the first included. *)
Theorem polygon_sides_equal (cx cy r : R) (n : Z) (w : world) :
  (Rabs cx <= bpow 125)%R -> (Rabs cy <= bpow 125)%R ->
  (0 <= r <= bpow 125)%R -> 1 <= n < 2 ^ 31 ->
  exists a,
    returned (generatePolygonVertices (Fin cx) (Fin cy) (Fin r) n w)
      = Some (Float32Array a) /\
    forall i, 0 <= i < n ->
      exists p q,
        points a !! Z.to_nat i = Some (finite_point p) /\
        points a !! Z.to_nat ((i + 1) mod n) = Some (finite_point q) /\
        (Rabs (distance p q - 2 * r * sin (PI / IZR n))
         <= 4 * tolerance cx cy r)%R.
Proof.
  intros Hcx Hcy Hr Hn.
  exists (Math_fround <$> polygon_values (Fin cx) (Fin cy) (Fin r) n).
  rewrite generatePolygonVertices_run, points_polygon_stored.
  split; [reflexivity|]. intros i Hi.
  assert (Rabs r <= bpow 125)%R as Hr' by (rewrite Rabs_pos_eq; lra).
  assert (0 <= (i + 1) mod n < n) as Hj by (apply Z.mod_pos_bound; lia).
  destruct (stored_sample cx cy r n i 125) as (x & y & Hp & _ & _ & Hpin);
    [lia|assumption..|lia|lia|].
  destruct (stored_sample cx cy r n ((i + 1) mod n) 125)
    as (x' & y' & Hq & _ & _ & Hqin); [lia|assumption..|lia|lia|].
  exists (x, y), (x', y').
  rewrite !lookup_stored_samples, Hp, Hq by lia.
  split; [reflexivity|]. split; [reflexivity|].
  rewrite <- (side_length cx cy r n i ((i + 1) mod n)); [|lra|lia|].
  - exact (distance_within _ _ _ _ _ _ _ Hpin Hqin).
  - destruct (decide (i = n - 1)) as [->|Hne].
    + right. split; [reflexivity|].
      replace (n - 1 + 1) with n by lia. apply Z.mod_same. lia.
    + left. apply Z.mod_small. lia.
Qed.

Lemma polygon_sides_equal_witness :
  (Rabs 0 <= bpow 125)%R /\ (0 <= 1 <= bpow 125)%R /\ 1 <= 6 < 2 ^ 31 /\
  exists a,
    returned (generatePolygonVertices (Fin 0) (Fin 0) (Fin 1) 6 (World [] []))
      = Some (Float32Array a) /\
    forall i, 0 <= i < 6 ->
      exists p q,
        points a !! Z.to_nat i = Some (finite_point p) /\
        points a !! Z.to_nat ((i + 1) mod 6) = Some (finite_point q) /\
        (Rabs (distance p q - 2 * 1 * sin (PI / 6))
         <= 4 * tolerance 0 0 1)%R.
Proof.
  assert (Rabs 0 <= bpow 125)%R as H0
    by (rewrite Rabs_R0; apply Rlt_le, bpow_pos).
  assert (0 <= 1 <= bpow 125)%R as H1
    by (split; [lra|by apply bpow_nonneg_ge_1]).
  split; [exact H0|]. split; [exact H1|]. split; [lia|].
  apply (polygon_sides_equal 0 0 1 6 (World [] []) H0 H0 H1). lia.
Defined.

(** X6. For finite [cx], [cy] and [r >= 0] of magnitude at most
    [2^125] and a count [1 <= n < 2^31], every point that either
    generator returns is finite, and each of its coordinates lies
    within [r], plus the tolerance of a stored coordinate, of the
    centre's. *)
Theorem generated_points_bounded (cx cy r : R) (n : Z) (w : world) :
  (Rabs cx <= bpow 125)%R -> (Rabs cy <= bpow 125)%R ->
  (0 <= r <= bpow 125)%R -> 1 <= n < 2 ^ 31 ->
  exists c p,
    returned (generateCircleVertices (Fin cx) (Fin cy) (Fin r) n w)
      = Some (Float32Array c) /\
    returned (generatePolygonVertices (Fin cx) (Fin cy) (Fin r) n w)
      = Some (Float32Array p) /\
    Forall (within (cx, cy) (r + tolerance cx cy r)) (points c) /\
    Forall (within (cx, cy) (r + tolerance cx cy r)) (points p).
Proof.
  intros Hcx Hcy Hr Hn.
  exists (Math_fround <$> circle_values (Fin cx) (Fin cy) (Fin r) n),
         (Math_fround <$> polygon_values (Fin cx) (Fin cy) (Fin r) n).
  rewrite generateCircleVertices_run, generatePolygonVertices_run.
  split; [reflexivity|]. split; [reflexivity|].
  rewrite points_polygon_stored, points_circle_stored.
  assert (Rabs r <= bpow 125)%R as Hr' by (rewrite Rabs_pos_eq; lra).
  assert (forall len, len <= n + 1 ->
    Forall (within (cx, cy) (r + tolerance cx cy r))
      (stored <$> (sample_point (Fin cx) (Fin cy) (Fin r) n <$> seqZ 0 len)))
    as Hall.
  { intros len Hlen. rewrite <- list_fmap_compose.
    apply Forall_fmap, Forall_forall. intros i Hi%elem_of_seqZ.
    unfold compose.
    destruct (stored_sample cx cy r n i 125) as (x & y & -> & _ & _ & Hin);
      [lia|assumption..|lia|lia|].
    apply (within_bounded cx cy r n i); [lra|exact Hin]. }
  split; [|apply Hall; lia].
  apply Forall_cons. split; [|apply Hall; lia].
  apply (within_weaken _ _ _ _ (stored_centre cx cy r Hcx Hcy)). lra.
Qed.

Lemma generated_points_bounded_witness :
  (Rabs 0 <= bpow 125)%R /\ (0 <= 0.5 <= bpow 125)%R /\ 1 <= 50 < 2 ^ 31 /\
  exists c p,
    returned (generateCircleVertices (Fin 0) (Fin 0) (Fin 0.5) 50 (World [] []))
      = Some (Float32Array c) /\
    returned (generatePolygonVertices (Fin 0) (Fin 0) (Fin 0.5) 50 (World [] []))
      = Some (Float32Array p) /\
    Forall (within (0, 0)%R (0.5 + tolerance 0 0 0.5)) (points c) /\
    Forall (within (0, 0)%R (0.5 + tolerance 0 0 0.5)) (points p).
Proof.
  assert (Rabs 0 <= bpow 125)%R as H0
    by (rewrite Rabs_R0; apply Rlt_le, bpow_pos).
  assert (0 <= 0.5 <= bpow 125)%R as H1.
  { split; [lra|]. pose proof (bpow_nonneg_ge_1 125 ltac:(lia)). lra. }
  split; [exact H0|]. split; [exact H1|]. split; [lia|].
  apply (generated_points_bounded 0 0 0.5 50 (World [] []) H0 H0 H1). lia.
Defined.

(** ** Arguments that are not finite *)

Lemma fmap_constant {A B : Type} (f : A -> B) (b : B) (l : list A) :
  (forall x, f x = b) -> f <$> l = replicate (length l) b.
Proof.
  intros Hf. induction l as [|x l IH]; [reflexivity|].
  rewrite fmap_cons, Hf, IH. reflexivity.
Qed.

(** X8. A radius that is NaN is not caught: for every count [n >= 0]
    both generators return normally, every sampled point is
    [(NaN, NaN)] ([n + 1] of them after the centre for the circle, [n]
    for the polygon), and the circle begins with the centre as a
    [Float32Array] stores it. *)
Theorem radius_NaN_propagates (cx cy : number) (n : Z) (w : world) :
  0 <= n ->
  exists c p,
    returned (generateCircleVertices cx cy NaN n w) = Some (Float32Array c) /\
    returned (generatePolygonVertices cx cy NaN n w) = Some (Float32Array p) /\
    points c = (Math_fround cx, Math_fround cy)
                 :: replicate (Z.to_nat (n + 1)) (NaN, NaN) /\
    points p = replicate (Z.to_nat n) (NaN, NaN).
Proof.
  intros Hn.
  exists (Math_fround <$> circle_values cx cy NaN n),
         (Math_fround <$> polygon_values cx cy NaN n).
  rewrite generateCircleVertices_run, generatePolygonVertices_run.
  split; [reflexivity|]. split; [reflexivity|].
  rewrite points_circle_stored, points_polygon_stored.
  rewrite <- !list_fmap_compose.
  assert (forall i, (stored ∘ sample_point cx cy NaN n) i = (NaN, NaN))
    as HNaN.
  { intros i. unfold compose, stored, sample_point. cbn [nmul fst snd].
    by rewrite !nadd_NaN_r. }
  by rewrite !(fmap_constant _ _ _ HNaN), !length_seqZ.
Qed.

Lemma radius_NaN_propagates_witness :
  0 <= 1 /\
  exists c p,
    returned (generateCircleVertices (Fin 0) (Fin 0) NaN 1 (World [] []))
      = Some (Float32Array c) /\
    returned (generatePolygonVertices (Fin 0) (Fin 0) NaN 1 (World [] []))
      = Some (Float32Array p) /\
    points c = (Fin 0, Fin 0) :: replicate (Z.to_nat (1 + 1)) (NaN, NaN) /\
    points p = replicate (Z.to_nat 1) (NaN, NaN).
Proof.
  split; [lia|].
  destruct (radius_NaN_propagates (Fin 0) (Fin 0) 1 (World [] []))
    as (c & p & Hc & Hp & Hpc & Hpp); [lia|].
  rewrite Math_fround_0 in Hpc. by exists c, p.
Defined.

(** ** What the shape table holds *)

Lemma samples_in_clip_space (r : R) (n : Z) (l : list Z) :
  (Rabs r <= bpow (-1))%R -> 1 <= n < 2 ^ 31 ->
  Forall (fun i => 0 <= i <= n) l ->
  Forall in_clip_space
    (Math_fround <$> (l ≫= sample (Fin 0) (Fin 0) (Fin r) n)).
Proof.
  intros Hr Hn Hl. induction Hl as [|i l Hi _ IH]; [constructor|].
  rewrite bind_cons, fmap_app. apply Forall_app. split; [|exact IH].
  assert (Rabs 0 <= bpow (-1))%R as H0
    by (rewrite Rabs_R0; apply Rlt_le, bpow_pos).
  destruct (stored_sample 0 0 r n i (-1) ltac:(lia) H0 H0 Hr Hn Hi)
    as (x & y & Hst & Hx & Hy & _).
  unfold stored in Hst. apply pair_equal_spec in Hst as [Hx' Hy'].
  unfold sample. rewrite !fmap_cons, fmap_nil, Hx', Hy'.
  change (-1 + 1) with 0 in Hx, Hy. rewrite bpow_0 in Hx, Hy.
  apply Rabs_bounds in Hx, Hy.
  repeat (apply List.Forall_cons; [unfold in_clip_space; lra|]).
  apply List.Forall_nil.
Qed.

Lemma half_in_range : (Rabs 0.5 <= bpow (-1))%R.
Proof. rewrite Rabs_pos_eq by lra. unfold bpow. simpl. lra. Qed.

Lemma counts_in_range (n len : Z) :
  len <= n + 1 -> Forall (fun i => 0 <= i <= n) (seqZ 0 len).
Proof. intros Hlen. apply Forall_forall. intros i Hi%elem_of_seqZ. lia. Qed.

(** Settles [Forall in_clip_space l] for a list [l] of literals. *)
Ltac literals_in_clip_space :=
  repeat (apply List.Forall_cons; [unfold in_clip_space; lra|]);
  apply List.Forall_nil.

(** X9. The own properties of [shapes] are exactly the five registered
    names, and each of them holds a typed array with an even number of
    values, all finite and inside clip space [[-1, 1]]: [drawShape]
    always uploads whole points that the identity vertex shader keeps
    on the canvas. *)
Theorem shapes_well_formed (name : string) :
  match shapes !! name with
  | Some v =>
      registered name /\
      exists a, v = Float32Array a /\
                Nat.Even (length a) /\
                Forall in_clip_space a
  | None => ~ registered name
  end.
Proof.
  destruct (decide (registered name)) as [Hreg|Hreg];
    [|by rewrite (shapes_unregistered _ Hreg)].
  pose proof Hreg as Hname. revert Hname.
  unfold registered at 1. rewrite !elem_of_cons, elem_of_nil.
  intros [->|[->|[->|[->|[->|[]]]]]];
    rewrite shapes_unfold.
  - change (registered "triangle" /\ exists a,
      Float32Array [Fin 0; Fin 0.5; Fin (-0.5); Fin (-0.5); Fin 0.5; Fin (-0.5)]
      = Float32Array a /\ Nat.Even (length a) /\ Forall in_clip_space a).
    split; [exact Hreg|]. eexists. split; [reflexivity|].
    split; [by exists 3%nat|]. literals_in_clip_space.
  - change (registered "rectangle" /\ exists a,
      Float32Array
        [Fin (-0.5); Fin 0.5; Fin (-0.5); Fin (-0.5); Fin 0.5; Fin (-0.5);
         Fin (-0.5); Fin 0.5; Fin 0.5; Fin (-0.5); Fin 0.5; Fin 0.5]
      = Float32Array a /\ Nat.Even (length a) /\ Forall in_clip_space a).
    split; [exact Hreg|]. eexists. split; [reflexivity|].
    split; [by exists 6%nat|]. literals_in_clip_space.
  - change (registered "circle" /\ exists a,
      Float32Array (Math_fround <$> circle_values (Fin 0) (Fin 0) (Fin 0.5) 50)
      = Float32Array a /\ Nat.Even (length a) /\ Forall in_clip_space a).
    split; [exact Hreg|]. eexists. split; [reflexivity|]. split.
    + exists 52%nat. by rewrite length_circle_values.
    + unfold circle_values. rewrite fmap_app. apply Forall_app. split.
      * rewrite !fmap_cons, fmap_nil, Math_fround_0. literals_in_clip_space.
      * apply samples_in_clip_space;
          [exact half_in_range|lia|by apply counts_in_range].
  - change (registered "line" /\ exists a,
      Float32Array [Fin (-0.5); Fin 0; Fin 0.5; Fin 0]
      = Float32Array a /\ Nat.Even (length a) /\ Forall in_clip_space a).
    split; [exact Hreg|]. eexists. split; [reflexivity|].
    split; [by exists 2%nat|]. literals_in_clip_space.
  - change (registered "polygon" /\ exists a,
      Float32Array (Math_fround <$> polygon_values (Fin 0) (Fin 0) (Fin 0.5) 6)
      = Float32Array a /\ Nat.Even (length a) /\ Forall in_clip_space a).
    split; [exact Hreg|]. eexists. split; [reflexivity|]. split.
    + exists 6%nat. by rewrite length_polygon_values.
    + apply samples_in_clip_space;
        [exact half_in_range|lia|by apply counts_in_range].
Qed.

(** ** drawShape, for any name *)

Lemma registered_draws_once sc gl name :
  registered name -> exists mode, draws_once sc gl name mode.
Proof.
  unfold registered. rewrite !elem_of_cons, elem_of_nil.
  intros [->|[->|[->|[->|[->|[]]]]]].
  - exists TRIANGLES.
    eapply (draws_once_intro _ _ _ _ _ 3); rewrite ?shapes_unfold; reflexivity.
  - exists TRIANGLES.
    eapply (draws_once_intro _ _ _ _ _ 6); rewrite ?shapes_unfold; reflexivity.
  - exists TRIANGLE_FAN.
    eapply (draws_once_intro _ _ _ _ _ 52); rewrite ?shapes_unfold;
      [reflexivity..|].
    by rewrite length_circle_values.
  - exists LINES.
    eapply (draws_once_intro _ _ _ _ _ 2); rewrite ?shapes_unfold; reflexivity.
  - exists LINE_LOOP.
    eapply (draws_once_intro _ _ _ _ _ 6); rewrite ?shapes_unfold;
      [reflexivity..|].
    by rewrite length_polygon_values.
Qed.

(** X10. Whatever name it is given, [drawShape] returns without
    throwing, leaves the heap as it was and only appends to the log; it
    makes at most one draw call, and it makes one exactly when the name
    is one of the five registered shapes. *)
Theorem drawShape_draws_iff_registered (sc : scope)
  (gl : WebGLRenderingContext) (name : string) (w : world) :
  exists calls,
    drawShape sc gl name w = (Normal tt, World (heap w) (log w ++ calls)) /\
    (length (draw_calls calls) <= 1)%nat /\
    (draw_calls calls <> [] <-> registered name).
Proof.
  destruct (decide (registered name)) as [Hreg|Hreg].
  - destruct (registered_draws_once sc gl name Hreg) as [mode Hdraw].
    destruct (Hdraw w) as (a & calls & _ & Hrun & Hcalls & _).
    exists calls. split; [exact Hrun|]. rewrite Hcalls.
    split; [cbn [length]; lia|]. split; [intros _; exact Hreg|discriminate].
  - destruct (drawShape_unregistered sc gl name w Hreg)
      as [(calls & Hrun & Hcalls & _) _].
    exists calls. split; [exact Hrun|]. rewrite Hcalls.
    split; [cbn [length]; lia|].
    split; [intros H; by destruct H|]. intros H. by destruct Hreg.
Qed.

(** ** The bootstrap *)

Lemma drawShape_circle_run sc gl w :
  drawShape sc gl "circle" w =
  (Normal tt,
   World (heap w)
     (log w
      ++ setup_calls sc gl
           (Float32Array
              (Math_fround <$> circle_values (Fin 0) (Fin 0) (Fin 0.5) 50))
      ++ [gl_drawArrays TRIANGLE_FAN 0 (of_nat 52)])).
Proof.
  assert (shapes !! "circle"
          = Some (Float32Array
                    (Math_fround <$> circle_values (Fin 0) (Fin 0) (Fin 0.5) 50)))
    as Hlook by (rewrite shapes_unfold; reflexivity).
  rewrite drawShape_found; rewrite (Get_own _ _ _ Hlook); [|reflexivity].
  change (drawShape_switch "circle" ?v)
    with (count ← half_length v; emit (gl_drawArrays TRIANGLE_FAN 0 count)).
  unfold mbind, JS_bind, half_length, emit, mret, JS_ret. cbn [heap log].
  rewrite length_circle_values.
  change (2 + 2 * Z.to_nat (50 + 1))%nat with (2 * 52)%nat.
  by rewrite half_of_even, <- app_assoc by reflexivity.
Qed.

Lemma compileShader_run gl source type p :
  compileShader gl source type p =
  if compiles gl type then
    (Normal (Some (createShader_result gl type)),
     Page (arrays p) (actions p ++ compile_actions gl source type))
  else
    (Normal None,
     Page (arrays p)
       (actions p ++ compile_actions gl source type
        ++ [gl_getShaderInfoLog (createShader_result gl type);
            rendering (console_error
              [Str "Error compiling shader:";
               getShaderInfoLog_result gl (createShader_result gl type)]);
            gl_deleteShader (createShader_result gl type)])).
Proof.
  unfold compileShader, compiles, mbind, Boot_bind, act, mret, Boot_ret.
  cbn [arrays actions].
  destruct (getShaderParameter_result gl (createShader_result gl type)
              COMPILE_STATUS); cbn [negb arrays actions];
    by rewrite <- !app_assoc.
Qed.

Lemma createWebGLProgram_run gl vertexShader fragmentShader p :
  createWebGLProgram gl vertexShader fragmentShader p =
  let prog := createProgram_result gl in
  let linking :=
    [gl_createProgram; gl_attachShader prog vertexShader;
     gl_attachShader prog fragmentShader; gl_linkProgram prog;
     gl_getProgramParameter prog LINK_STATUS] in
  if getProgramParameter_result gl prog LINK_STATUS then
    (Normal prog, Page (arrays p) (actions p ++ linking))
  else
    (Throw (new_Error "Failed to link program"),
     Page (arrays p)
       (actions p ++ linking
        ++ [gl_getProgramInfoLog prog;
            rendering (console_error
              [Str "Error linking program:";
               getProgramInfoLog_result gl prog]);
            gl_deleteProgram prog])).
Proof.
  unfold createWebGLProgram, mbind, Boot_bind, act, raise, mret, Boot_ret.
  cbn [arrays actions].
  destruct (getProgramParameter_result gl (createProgram_result gl)
              LINK_STATUS); cbn [negb arrays actions];
    by rewrite <- !app_assoc.
Qed.

Lemma linked_context_Some document gl :
  linked_context document = Some gl ->
  exists element,
    document "glCanvas" = Some element /\
    getContext_result element "webgl" = Some gl /\
    getProgramParameter_result gl (createProgram_result gl) LINK_STATUS = true.
Proof.
  unfold linked_context. intros H.
  destruct (document "glCanvas") as [element|] eqn:Hdoc; [|discriminate].
  destruct (getContext_result element "webgl") as [gl'|] eqn:Hgl;
    [|discriminate].
  destruct (getProgramParameter_result gl' (createProgram_result gl')
              LINK_STATUS) eqn:Hlink; [|discriminate].
  injection H as ->. by exists element.
Qed.

(** X11. When the canvas is there, gives a WebGL context, both shaders
    compile and the program links, the module runs to its end without
    throwing and makes exactly these calls, in this order: the lookup
    of the canvas and of its context, the compilation of the vertex and
    then of the fragment shader, the creation of the program with both
    shaders attached (vertex first) and linked, [useProgram] on it, and
    then the calls of [drawShape] for the circle, ending with the one
    draw call [drawArrays(TRIANGLE_FAN, 0, 52)].  The program that is
    linked is the one that [drawShape] queries for [aPosition]. *)
Theorem main_draws_the_circle
  (document : string -> option HTMLCanvasElement)
  (vertexShaderSource fragmentShaderSource : string) (location : value)
  (gl : WebGL) (p : page) :
  linked_context document = Some gl ->
  compiles gl VERTEX_SHADER = true ->
  compiles gl FRAGMENT_SHADER = true ->
  exists circle,
    shapes !! "circle" = Some (Float32Array circle) /\
    length (points circle) = 52%nat /\
    let prog := createProgram_result gl in
    main document vertexShaderSource fragmentShaderSource location p =
    (Normal tt,
     Page (arrays p)
       (actions p
        ++ [document_getElementById "glCanvas"; canvas_getContext "webgl"]
        ++ compile_actions gl vertexShaderSource VERTEX_SHADER
        ++ compile_actions gl fragmentShaderSource FRAGMENT_SHADER
        ++ [gl_createProgram;
            gl_attachShader prog (Some (createShader_result gl VERTEX_SHADER));
            gl_attachShader prog (Some (createShader_result gl FRAGMENT_SHADER));
            gl_linkProgram prog;
            gl_getProgramParameter prog LINK_STATUS;
            gl_useProgram prog]
        ++ (rendering <$>
              setup_calls (Build_scope prog location) (drawing_context gl)
                (Float32Array circle)
              ++ [gl_drawArrays TRIANGLE_FAN 0 (of_nat 52)]))).
Proof.
  intros Hctx Hv Hf.
  apply linked_context_Some in Hctx as (element & Hdoc & Hgl & Hlink).
  exists (Math_fround <$> circle_values (Fin 0) (Fin 0) (Fin 0.5) 50).
  split; [rewrite shapes_unfold; reflexivity|]. split.
  { apply length_points_even. by rewrite length_circle_values. }
  cbv zeta. unfold main, initializeWebGL, mbind, Boot_bind, act.
  rewrite Hdoc. cbn [arrays actions]. rewrite Hgl.
  unfold mret, Boot_ret.
  rewrite compileShader_run, Hv. cbv beta iota.
  rewrite compileShader_run, Hf. cbv beta iota.
  rewrite createWebGLProgram_run. cbv zeta. rewrite Hlink. cbv beta iota.
  unfold render. cbn [arrays actions]. rewrite drawShape_circle_run.
  cbn [heap log app]. by rewrite <- !app_assoc.
Qed.

Lemma main_draws_the_circle_witness :
  linked_context (a_document (Some (a_webgl true true)))
    = Some (a_webgl true true) /\
  compiles (a_webgl true true) VERTEX_SHADER = true /\
  compiles (a_webgl true true) FRAGMENT_SHADER = true /\
  exists p',
    main (a_document (Some (a_webgl true true))) "void main() {}"
      "void main() {}" (Object "Location") (Page [] []) = (Normal tt, p') /\
    last (actions p')
      = Some (rendering (gl_drawArrays TRIANGLE_FAN 0 (of_nat 52))).
Proof.
  split; [reflexivity|]. split; [reflexivity|]. split; [reflexivity|].
  destruct (main_draws_the_circle (a_document (Some (a_webgl true true)))
              "void main() {}" "void main() {}" (Object "Location")
              (a_webgl true true) (Page [] []) eq_refl eq_refl eq_refl)
    as (circle & _ & _ & Hrun).
  eexists. split; [exact Hrun|]. reflexivity.
Defined.

Lemma main_with_context document vertexShaderSource fragmentShaderSource
  location element gl p :
  document "glCanvas" = Some element ->
  getContext_result element "webgl" = Some gl ->
  main document vertexShaderSource fragmentShaderSource location p =
  (vertexShader ← compileShader gl vertexShaderSource VERTEX_SHADER;
   fragmentShader ← compileShader gl fragmentShaderSource FRAGMENT_SHADER;
   program ← createWebGLProgram gl vertexShader fragmentShader;
   act (gl_useProgram program);;
   render (drawShape (Build_scope program location) (drawing_context gl)
             "circle"))
    (Page (arrays p)
       (actions p
        ++ [document_getElementById "glCanvas"; canvas_getContext "webgl"])).
Proof.
  intros Hdoc Hgl. unfold main, initializeWebGL.
  unfold mbind at 1 2, Boot_bind at 1 2, act at 1. rewrite Hdoc.
  unfold mbind at 1, Boot_bind at 1, act at 1. cbn [arrays actions].
  rewrite Hgl. unfold mret, Boot_ret. by rewrite <- app_assoc.
Qed.

(** Runs the shader and program steps of [main] once the status
    answers are known. *)
Ltac run_bootstrap :=
  unfold mbind, Boot_bind;
  repeat (first [rewrite compileShader_run | rewrite createWebGLProgram_run];
          cbv zeta;
          repeat match goal with
                 | H : compiles _ _ = _ |- _ => rewrite H
                 | H : getProgramParameter_result _ _ _ = _ |- _ => rewrite H
                 end;
          cbv beta iota).

(** Settles membership in a list that is given element by element. *)
Ltac in_actions :=
  rewrite ?elem_of_app;
  repeat first [ apply list_elem_of_here
               | apply list_elem_of_further
               | left; solve [in_actions]
               | right ].

(** X12. Without a linked program nothing is drawn.  When the canvas
    is missing, or gives no WebGL context, or the program does not
    link, the module ends by throwing, and among the calls it made
    there is neither [useProgram] nor a draw call.  Without a canvas the
    lookup of the element is its only call and a [TypeError] is thrown;
    without a context it logs one error and throws
    [Error("WebGL not supported")] before any call on a context; when
    both shaders compile and the program does not link, it throws
    [Error("Failed to link program")] right after deleting the
    program. *)
Theorem main_throws_without_linked_program
  (document : string -> option HTMLCanvasElement)
  (vertexShaderSource fragmentShaderSource : string) (location : value)
  (p : page) :
  linked_context document = None ->
  exists e added,
    main document vertexShaderSource fragmentShaderSource location p
      = (Throw e, Page (arrays p) (actions p ++ added)) /\
    existsb uses_program added = false /\
    match document "glCanvas" with
    | None =>
        e = Object "TypeError" /\
        added = [document_getElementById "glCanvas"]
    | Some element =>
        match getContext_result element "webgl" with
        | None =>
            e = new_Error "WebGL not supported" /\
            added = [document_getElementById "glCanvas";
                     canvas_getContext "webgl";
                     rendering (console_error
                       [Str "WebGL not supported in this browser!"])]
        | Some gl =>
            if compiles gl VERTEX_SHADER && compiles gl FRAGMENT_SHADER
            then e = new_Error "Failed to link program" /\
                 last added = Some (gl_deleteProgram (createProgram_result gl))
            else True
        end
    end.
Proof.
  unfold linked_context. intros Hctx.
  destruct (document "glCanvas") as [element|] eqn:Hdoc.
  - destruct (getContext_result element "webgl") as [gl|] eqn:Hgl.
    + destruct (getProgramParameter_result gl (createProgram_result gl)
                  LINK_STATUS) eqn:Hlink; [discriminate|].
      rewrite (main_with_context _ _ _ _ _ _ _ Hdoc Hgl).
      destruct (compiles gl VERTEX_SHADER) eqn:Hv,
               (compiles gl FRAGMENT_SHADER) eqn:Hf;
        run_bootstrap; cbn [arrays actions];
        rewrite <- !app_assoc; eexists _, _;
        (split; [reflexivity|]); (split; [reflexivity|]);
        cbn [andb]; try exact I; split; reflexivity.
    + unfold main, initializeWebGL, mbind, Boot_bind, act, raise.
      rewrite Hdoc. cbn [arrays actions]. rewrite Hgl.
      cbn [arrays actions]. rewrite <- !app_assoc.
      eexists _, _. split; [reflexivity|]. split; [reflexivity|]. done.
  - unfold main, initializeWebGL, mbind, Boot_bind, act, raise.
    rewrite Hdoc. cbn [arrays actions].
    eexists _, _. split; [reflexivity|]. split; [reflexivity|]. done.
Qed.

Lemma main_throws_without_linked_program_witness :
  linked_context (a_document (Some (a_webgl true false))) = None /\
  exists added,
    main (a_document (Some (a_webgl true false))) "void main() {}"
      "void main() {}" (Object "Location") (Page [] [])
      = (Throw (new_Error "Failed to link program"), Page [] added) /\
    existsb uses_program added = false /\
    last added = Some (gl_deleteProgram (Object "WebGLProgram")).
Proof.
  split; [reflexivity|].
  destruct (main_throws_without_linked_program
              (a_document (Some (a_webgl true false))) "void main() {}"
              "void main() {}" (Object "Location") (Page [] []) eq_refl)
    as (e & added & Hrun & Hnone & He & Hlast).
  exists added. rewrite <- He. split; [exact Hrun|].
  split; [exact Hnone|exact Hlast].
Defined.

(** X13. The module does not look at what [compileShader] returns.
    When a shader fails to compile, [compileShader] logs the info log,
    deletes the shader and returns [null] without throwing, and the
    module goes on: it creates the program and calls
    [gl.attachShader(program, null)]. *)
Theorem main_attaches_null_shader
  (document : string -> option HTMLCanvasElement)
  (vertexShaderSource fragmentShaderSource : string) (location : value)
  (element : HTMLCanvasElement) (gl : WebGL) (type : shader_type) (p : page) :
  document "glCanvas" = Some element ->
  getContext_result element "webgl" = Some gl ->
  compiles gl type = false ->
  exists c added,
    main document vertexShaderSource fragmentShaderSource location p
      = (c, Page (arrays p) (actions p ++ added)) /\
    rendering (console_error
      [Str "Error compiling shader:";
       getShaderInfoLog_result gl (createShader_result gl type)]) ∈ added /\
    gl_deleteShader (createShader_result gl type) ∈ added /\
    gl_createProgram ∈ added /\
    gl_attachShader (createProgram_result gl) None ∈ added.
Proof.
  intros Hdoc Hgl Htype.
  rewrite (main_with_context _ _ _ _ _ _ _ Hdoc Hgl).
  destruct (getProgramParameter_result gl (createProgram_result gl)
              LINK_STATUS) eqn:Hlink;
    destruct type;
    [ destruct (compiles gl FRAGMENT_SHADER) eqn:Hother
    | destruct (compiles gl VERTEX_SHADER) eqn:Hother
    | destruct (compiles gl FRAGMENT_SHADER) eqn:Hother
    | destruct (compiles gl VERTEX_SHADER) eqn:Hother ];
    run_bootstrap; unfold act, render; cbn [arrays actions];
    rewrite ?drawShape_circle_run; cbn [heap log];
    rewrite <- ?app_assoc; eexists _, _;
    (split; [reflexivity|]); unfold compile_actions;
    repeat split; in_actions.
Qed.

Lemma main_attaches_null_shader_witness :
  a_document (Some (a_webgl false true)) "glCanvas"
    = Some {| getContext_result := fun contextId =>
                if bool_decide (contextId = "webgl")
                then Some (a_webgl false true) else None |} /\
  compiles (a_webgl false true) VERTEX_SHADER = false /\
  exists c added,
    main (a_document (Some (a_webgl false true))) "void main() {"
      "void main() {}" (Object "Location") (Page [] [])
      = (c, Page [] added) /\
    gl_attachShader (Object "WebGLProgram") None ∈ added.
Proof.
  split; [reflexivity|]. split; [reflexivity|].
  destruct (main_attaches_null_shader
              (a_document (Some (a_webgl false true))) "void main() {"
              "void main() {}" (Object "Location") _ (a_webgl false true)
              VERTEX_SHADER (Page [] []) eq_refl eq_refl eq_refl)
    as (c & added & Hrun & _ & _ & _ & Hattach).
  exists c, added. split; [exact Hrun|exact Hattach].
Defined.

(** ** drawShape and the cheat sheet *)

Lemma cheat_sheet_triangle_run program gl w :
  let triangleVertices :=
    [Fin 0; Fin 0.5; Fin (-0.5); Fin (-0.5); Fin 0.5; Fin (-0.5)] in
  cheat_sheet_triangle program gl w =
  (Normal tt,
   World (heap w ++ [triangleVertices])
     (log w ++
      [gl_createBuffer;
       gl_bindBuffer ARRAY_BUFFER (createBuffer_result gl);
       gl_bufferData ARRAY_BUFFER (Float32Array triangleVertices) STATIC_DRAW;
       gl_getAttribLocation program "aPosition";
       gl_enableVertexAttribArray
         (getAttribLocation_result gl program "aPosition");
       gl_vertexAttribPointer
         (getAttribLocation_result gl program "aPosition") 2 FLOAT false 0 0;
       gl_clearColor (Fin 0) (Fin 0) (Fin 0) (Fin 1);
       gl_clear COLOR_BUFFER_BIT;
       gl_drawArrays TRIANGLES 0 (Fin 3)])).
Proof.
  cbv zeta. unfold cheat_sheet_triangle.
  unfold mbind at 1. unfold JS_bind at 1. rewrite Float32Array_from_run.
  rewrite !fmap_cons, fmap_nil.
  rewrite !Math_fround_0, !Math_fround_half, !Math_fround_minus_half.
  unfold createBuffer, getAttribLocation.
  unfold mbind, JS_bind, emit, mret, JS_ret.
  cbn [heap log]. by rewrite <- !app_assoc.
Qed.

(** X14. For the triangle, [drawShape] makes the calls of the cheat
    sheet's sequence, one for one and in the same order, except for the
    attribute index of the two binding calls: the cheat sheet passes
    the result of [gl.getAttribLocation], [drawShape] passes
    [location].  The two sequences are the same exactly when [location]
    happens to be that result. *)
Theorem drawShape_triangle_and_cheat_sheet (sc : scope)
  (gl : WebGLRenderingContext) (w : world) :
  exists calls calls',
    log (drawShape sc gl "triangle" w).2 = log w ++ calls /\
    log (cheat_sheet_triangle (program sc) gl w).2 = log w ++ calls' /\
    calls' = with_attribute_index
               (getAttribLocation_result gl (program sc) "aPosition")
             <$> calls /\
    (calls = calls' <->
     location sc = getAttribLocation_result gl (program sc) "aPosition").
Proof.
  assert (shapes !! "triangle"
          = Some (Float32Array
              [Fin 0; Fin 0.5; Fin (-0.5); Fin (-0.5); Fin 0.5; Fin (-0.5)]))
    as Hlook by (rewrite shapes_unfold; reflexivity).
  rewrite drawShape_found; rewrite (Get_own _ _ _ Hlook); [|reflexivity].
  change (drawShape_switch "triangle" ?v)
    with (count ← half_length v; emit (gl_drawArrays TRIANGLES 0 count)).
  rewrite cheat_sheet_triangle_run. cbv zeta.
  unfold mbind, JS_bind, half_length, emit, mret, JS_ret, setup_calls.
  cbn [heap log snd length].
  change (of_nat 6) with (of_nat (2 * 3)). rewrite half_of_even by reflexivity.
  rewrite <- !app_assoc. eexists _, _.
  split; [reflexivity|]. split; [reflexivity|]. split; [reflexivity|].
  split.
  - intros [= ->]. reflexivity.
  - intros ->. reflexivity.
Qed.
